(** * Vigie-test product scraper: the pagination loop of [main.go]

    A shallow embedding of [scrapeProducts], [addProductsWithoutDuplicates]
    and [extractProductsFromPage], and the properties of the catalog they
    assemble: error propagation, uniqueness of URLs, the record budget,
    termination, first-seen order and the page numbers requested. *)

From Stdlib Require Import ZArith String List Lia.
From Stdlib Require Import Floats.PrimFloat.
From stdpp Require Import gmap strings list.

Local Open Scope Z_scope.

(** ** Data model *)

(** [type Product struct]: four strings, a float64 and an int. *)
Record Product := mkProduct {
  URL : string;
  Name : string;
  Image : string;
  Price : string;
  RatingAvg : float;
  RatingCount : Z
}.

(** Go errors.  [Errorf format page cause] is the value of
    [fmt.Errorf(format, page, cause)] for a format with one [%d] and one
    [%w]: it keeps the page number and wraps the cause. *)
Inductive error :=
| BrowserError (msg : string)
| Errorf (format : string) (page : Z) (cause : error).

(** Go's [int] is 64 bits wide on the 64-bit platforms; [wrap64] is the value
    an [int] holds after an arithmetic result [z] is stored in it.  Only
    [page++] needs it: the other integers of the program are lengths of
    slices and counts of their elements. *)
Definition wrap64 (z : Z) : Z := (z + 2 ^ 63) mod 2 ^ 64 - 2 ^ 63.

Definition maxInt : Z := 2 ^ 63 - 1.

(** [len(s)] of a slice. *)
Definition len {A} (s : list A) : Z := Z.of_nat (List.length s).

(** ** addProductsWithoutDuplicates

    The [for _, product := range pageProducts] loop.  The slice behind
    [products *[]Product] and the map [seen] are mutated in place by the Go
    code; here they are threaded through and returned next to [addedCount].
    [addedCount] counts appended elements of a slice, so it stays below the
    length of that slice and its increment cannot wrap. *)
Fixpoint addLoop (products : list Product) (seen : gset string) (addedCount : Z)
    (maxProducts : Z) (pageProducts : list Product)
    : list Product * gset string * Z :=
  match pageProducts with
  | [] => (products, seen, addedCount)
  | product :: rest =>
      if len products >=? maxProducts then (products, seen, addedCount)
      else if decide (URL product ∈ seen)
      then addLoop products seen addedCount maxProducts rest
      else addLoop (products ++ [product]) ({[URL product]} ∪ seen)
                   (addedCount + 1) maxProducts rest
  end.

Definition addProductsWithoutDuplicates (products pageProducts : list Product)
    (seen : gset string) (maxProducts : Z) : list Product * gset string * Z :=
  addLoop products seen 0 maxProducts pageProducts.

(** ** extractProductsFromPage *)

Module Extractor.

(** JavaScript's [String.prototype.includes]. *)
Fixpoint includes (s needle : string) : bool :=
  String.prefix needle s
  || match s with
     | EmptyString => false
     | String _ s' => includes s' needle
     end.

(** A JavaScript string is truthy when it is not empty. *)
Definition truthy (s : string) : bool :=
  match s with EmptyString => false | String _ _ => true end.

(** The last stage of [extractJSContent]:
    [.filter(p => p.url && p.url.includes('/products/'))], applied to the
    objects the [.map(...)] stage built from the [.grid-product] elements. *)
Definition extractJSContent (mapped : list Product) : list Product :=
  List.filter (fun p => truthy (URL p) && includes (URL p) "/products/"%string)
              mapped.

Section Browser.

(** What the browser holds for page [n] of [urlTemplate]: the error
    [chromedp.Run] ends with, or the objects the [.map(...)] stage of the
    script yields on the rendered page. *)
Variable render : Z -> error + list Product.

Definition extractProductsFromPage (page : Z) : list Product * option error :=
  match render page with
  | inl err =>
      ([], Some (Errorf "failed to navigate or evaluate page %d: %w"%string
                        page err))
  | inr mapped => (extractJSContent mapped, None)
  end.

End Browser.

End Extractor.

(** ** scrapeProducts *)

(** The variables of [scrapeProducts], and the page numbers handed to
    [extractProductsFromPage] so far (a ghost field: the Go code keeps no such
    list). *)
Record state := mkState {
  products : list Product;
  page : Z;
  seen : gset string;
  fetched : list Z
}.

(** One pass through the [for len(products) < maxProducts] loop: either the
    function is left with its two results, or the loop goes round again. *)
Inductive step :=
| Continue (st : state)
| Exit (result : list Product) (err : option error) (fetched : list Z).

(** What a call returned, [None] when the fuel of the model ran out before the
    loop was left, with the page numbers requested during the call. *)
Record run := mkRun {
  ret : option (list Product * option error);
  calls : list Z
}.

Section Assembler.

(** The callee of the loop, as a function of the page number. *)
Variable extractProductsFromPage : Z -> list Product * option error.

Definition iteration (maxProducts : Z) (st : state) : step :=
  if len (products st) <? maxProducts then
    let fetched' := fetched st ++ [page st] in
    match extractProductsFromPage (page st) with
    | (_, Some err) =>
        Exit [] (Some (Errorf "error scraping page %d: %w"%string (page st) err))
             fetched'
    | (pageProducts, None) =>
        if len pageProducts =? 0 then Exit (products st) None fetched'
        else
          let '(products', seen', productsAdded) :=
            addProductsWithoutDuplicates (products st) pageProducts (seen st)
                                         maxProducts in
          if (productsAdded =? 0) && (len products' >? 0)
          then Exit products' None fetched'
          else Continue (mkState products' (wrap64 (page st + 1)) seen' fetched')
    end
  else Exit (products st) None (fetched st).

Fixpoint scrapeLoop (fuel : nat) (maxProducts : Z) (st : state) : run :=
  match fuel with
  | O => mkRun None (fetched st)
  | S fuel' =>
      match iteration maxProducts st with
      | Continue st' => scrapeLoop fuel' maxProducts st'
      | Exit result err log => mkRun (Some (result, err)) log
      end
  end.

(** [var products []Product; page := 1; seen := make(map[string]struct{})]. *)
Definition initial : state := mkState [] 1 ∅ [].

(** [scrapeProducts(ctx, maxProducts)].  The loop is run with one unit of
    fuel more than the budget; [scrapeLoop_fuel] below shows that no larger
    amount changes the result. *)
Definition scrapeProducts (maxProducts : Z) : run :=
  scrapeLoop (S (Z.to_nat maxProducts)) maxProducts initial.

End Assembler.

(** The program of [main]: the loop over the real extractor. *)
Definition scrape (render : Z -> error + list Product) (maxProducts : Z) : run :=
  scrapeProducts (Extractor.extractProductsFromPage render) maxProducts.

(** ** The catalog the specification describes *)

(** The records of [stream] whose URL is neither in [observed] nor carried by
    an earlier record of [stream], in the order of [stream]. *)
Fixpoint first_seen_after (observed : list string) (stream : list Product)
    : list Product :=
  match stream with
  | [] => []
  | r :: rest =>
      if bool_decide (URL r ∈ observed) then first_seen_after observed rest
      else r :: first_seen_after (URL r :: observed) rest
  end.

Definition first_seen (stream : list Product) : list Product :=
  first_seen_after [] stream.

(** The records of the pages [log], page after page. *)
Definition stream_of (extract : Z -> list Product * option error) (log : list Z)
    : list Product :=
  concat (map (fun p => fst (extract p)) log).

(** The page numbers 1, 2, ..., k. *)
Definition pageNums (k : nat) : list Z := map Z.of_nat (seq 1 k).

(** ** The invariant of the loop and the shape of its results *)

Section Invariant.
Variable extract : Z -> list Product * option error.
Variable maxProducts : Z.

(** What holds of the variables of [scrapeProducts] each time the loop
    condition is evaluated. *)
Record Inv (st : state) : Prop := mkInv {
  inv_products :
    products st
    = take (Z.to_nat maxProducts) (first_seen (stream_of extract (fetched st)));
  inv_seen : forall u, u ∈ seen st <-> u ∈ URL <$> products st;
  inv_ok : forall p, p ∈ fetched st -> snd (extract p) = None;
  inv_progress : (length (fetched st) <= length (products st))%nat
}.

(** The two ways [scrapeProducts] returns: the catalog with a nil error after
    pages that all loaded, or a nil catalog with the wrapped error of the
    last page requested. *)
Inductive finished (r : run) : Prop :=
| finished_ok :
    (forall p, p ∈ calls r -> snd (extract p) = None) ->
    ret r = Some (take (Z.to_nat maxProducts)
                       (first_seen (stream_of extract (calls r))), None) ->
    finished r
| finished_error log p e :
    calls r = log ++ [p] ->
    (forall q, q ∈ log -> snd (extract q) = None) ->
    snd (extract p) = Some e ->
    ret r = Some ([], Some (Errorf "error scraping page %d: %w"%string p e)) ->
    finished r.

(** The states in which the loop condition is evaluated during a call. *)
Inductive reachable : state -> Prop :=
| reachable_initial : reachable initial
| reachable_next st st' :
    reachable st -> iteration extract maxProducts st = Continue st' ->
    reachable st'.

(** The free room in the catalog bounds the iterations still to come. *)
Definition room (st : state) : nat :=
  (Z.to_nat maxProducts - length (products st))%nat.

End Invariant.

(** * Scenarios *)

Definition item (url name : string) : Product :=
  mkProduct url name "https://cdn.example/img.jpg"%string "12,00"%string
            0%float 0.

Definition item_a : Product := item "/products/a" "A".
Definition item_b : Product := item "/products/b" "B".
Definition item_c : Product := item "/products/c" "C".
Definition item_d : Product := item "/products/d" "D".
Definition item_e : Product := item "/products/e" "E".
Definition item_f : Product := item "/products/f" "F".

Definition load_error : error := BrowserError "context deadline exceeded".

(** Page 1 holds two records, page 2 fails to load. *)
Definition pages_D (p : Z) : list Product * option error :=
  if p =? 1 then ([item_a; item_b], None)
  else ([], Some (Errorf "failed to navigate or evaluate page %d: %w"%string
                         p load_error)).

(** Pages 1 and 2 hold three records each, later pages are empty. *)
Definition pages_A (p : Z) : list Product * option error :=
  if p =? 1 then ([item_a; item_b; item_c], None)
  else if p =? 2 then ([item_d; item_e; item_f], None)
  else ([], None).

(** As [pages_A] on pages 1 and 2, and failing from page 3 on. *)
Definition pages_A' (p : Z) : list Product * option error :=
  if p <=? 2 then pages_A p else ([], Some load_error).

(** Page 1 holds two records and page 2 is empty. *)
Definition pages_E2 (p : Z) : list Product * option error :=
  if p =? 1 then ([item_a; item_b], None) else ([], None).

(** Every page is empty. *)
Definition pages_E (p : Z) : list Product * option error := ([], None).

(** Pages 1 and 2 hold the same two records, page 3 would hold a third. *)
Definition pages_C (p : Z) : list Product * option error :=
  if p <=? 2 then ([item_a; item_b], None) else ([item_c], None).

(** Page 1 holds two records with the URL "/products/a", page 2 is empty. *)
Definition pages_B (p : Z) : list Product * option error :=
  if p =? 1 then ([item "/products/a" "first"; item "/products/a" "second"], None)
  else ([], None).

(** Page 1 holds two records, page 2 one of them again. *)
Definition pages_C' (p : Z) : list Product * option error :=
  if p =? 1 then ([item_a; item_b], None) else ([item_b], None).

(** A rendered storefront: page 1 shows a tile without link, two products and
    a tile that links to a collection; page 2 shows a tile without link. *)
Definition storefront (p : Z) : error + list Product :=
  if p =? 1
  then inr [item "" "no link"; item_a; item "/collections/all" "banner"; item_b]
  else inr [item "" "no link"].

(** The variables of [scrapeProducts] after its first iteration, when that
    iteration goes on. *)
Definition after_page1 (extract : Z -> list Product * option error)
    (maxProducts : Z) : state :=
  match iteration extract maxProducts initial with
  | Continue st => st
  | Exit _ _ _ => initial
  end.

(** ** outputResults and main *)

(** The [const maxProducts = 100] of the package: the budget [main] passes
    to [scrapeProducts] and the cap of the listing in [outputResults]. *)
Definition maxProducts_const : Z := 100.

(** An operand of a [fmt.Printf] call. *)
Inductive arg :=
| ArgInt (n : Z)
| ArgString (s : string)
| ArgFloat (f : float).

(** A write to standard output: a call of [fmt.Printf] with its format and
    operands, or of [fmt.Println] with its operand. *)
Inductive output :=
| Printf (format : string) (args : list arg)
| Println (line : string).

(** How the process ends: [main] returns, or [log.Fatal] or [log.Fatalf]
    writes its operands to the log and exits with status 1. *)
Inductive status :=
| Returned
| Fatal (err : error)
| Fatalf (format : string) (err : error).

(** The Go escape [\n]. *)
Definition nl : string := String (Ascii.ascii_of_nat 10) EmptyString.

Definition fmtHeader : string := "These are the %d products Found :" +:+ nl +:+ nl.
Definition fmtEntry : string := "%d. %s" +:+ nl.
Definition fmtURL : string := "   URL: %s" +:+ nl.
Definition fmtPrice : string := "   Price: %s" +:+ nl.
Definition fmtRating : string := "   Rating: %.2f/5 (%d reviews)" +:+ nl.
Definition fmtImage : string := "   Image: %s" +:+ nl +:+ nl.

(** The [Printf] calls of one pass through the loop of [outputResults], for
    the product at index [i]. *)
Definition listEntry (i : Z) (product : Product) : list output :=
  [Printf fmtEntry [ArgInt (i + 1); ArgString (Name product)];
   Printf fmtURL [ArgString (URL product)];
   Printf fmtPrice [ArgString (Price product)]]
  ++ (if RatingCount product >? 0
      then [Printf fmtRating [ArgFloat (RatingAvg product);
                              ArgInt (RatingCount product)]]
      else [])
  ++ [Printf fmtImage [ArgString (Image product)]].

(** [for i, product := range products { if i >= maxProducts { break } ... }],
    from index [i] on. *)
Fixpoint listProducts (i : Z) (products : list Product) : list output :=
  match products with
  | [] => []
  | product :: rest =>
      if i >=? maxProducts_const then []
      else listEntry i product ++ listProducts (i + 1) rest
  end.

Section Output.

(** [json.MarshalIndent(products, "", "  ")] of the package encoding/json,
    with the bytes it returns read as a string. *)
Variable MarshalIndent : list Product -> string * option error.

Definition outputResults (products : list Product) (outputJSON : bool)
    : list output * status :=
  if outputJSON then
    match MarshalIndent products with
    | (_, Some err) => ([], Fatal err)
    | (jsonData, None) => ([Println jsonData], Returned)
    end
  else
    (Printf fmtHeader [ArgInt (len products)] :: listProducts 0 products,
     Returned).

(** [main], for the value [outputJSON] that the flag [-json] has after
    [flag.Parse] and for what the browser of the context holds; [None] when
    the fuel of [scrapeProducts] ran out. *)
Definition main (outputJSON : bool) (render : Z -> error + list Product)
    : option (list output * status) :=
  match ret (scrape render maxProducts_const) with
  | None => None
  | Some (_, Some err) => Some ([], Fatalf "Failed to scrape products: %v" err)
  | Some (products, None) => Some (outputResults products outputJSON)
  end.

End Output.

(** The listing the loop of [outputResults] would write without its cap: the
    calls of [listEntry] for every product, numbered from [i + 1]. *)
Fixpoint listAll (i : Z) (products : list Product) : list output :=
  match products with
  | [] => []
  | product :: rest => listEntry i product ++ listAll (i + 1) rest
  end.

(** Page 1 loads with one product, page 2 fails. *)
Definition shop_down (p : Z) : error + list Product :=
  if p =? 1 then inr [item_a] else inl load_error.

(** An encoder that fails on every catalog. *)
Definition marshal_fails (products : list Product) : string * option error :=
  (EmptyString, Some (BrowserError "json: unsupported value")).

(** * Lemmas *)

(** ** Slices and first-seen lists *)

Lemma len_app {A} (l1 l2 : list A) : len (l1 ++ l2) = len l1 + len l2.
Proof. unfold len. rewrite length_app. lia. Qed.

Lemma len_nonneg {A} (l : list A) : 0 <= len l.
Proof. unfold len. lia. Qed.

Lemma room_succ {A} (maxProducts : Z) (products : list A) (r : A) :
  len products < maxProducts ->
  Z.to_nat (maxProducts - len products)
  = S (Z.to_nat (maxProducts - len (products ++ [r]))).
Proof. rewrite len_app. unfold len. simpl. lia. Qed.

Lemma first_seen_after_ext o1 o2 l :
  (forall u, u ∈ o1 <-> u ∈ o2) ->
  first_seen_after o1 l = first_seen_after o2 l.
Proof.
  revert o1 o2. induction l as [|r l IH]; intros o1 o2 Hext; simpl; [done|].
  destruct (bool_decide_reflect (URL r ∈ o1)) as [H1|H1];
    destruct (bool_decide_reflect (URL r ∈ o2)) as [H2|H2].
  - by apply IH.
  - by apply Hext in H1.
  - by apply Hext in H2.
  - f_equal. apply IH. intros u. rewrite !elem_of_cons, Hext. tauto.
Qed.

Lemma first_seen_after_app o l1 l2 :
  first_seen_after o (l1 ++ l2)
  = first_seen_after o l1 ++ first_seen_after ((URL <$> l1) ++ o) l2.
Proof.
  revert o. induction l1 as [|r l1 IH]; intros o; simpl; [done|].
  destruct (bool_decide_reflect (URL r ∈ o)) as [Hin|Hin].
  - rewrite IH. f_equal. apply first_seen_after_ext. intros u.
    rewrite !elem_of_app, !elem_of_cons, !elem_of_app.
    split; [tauto|]. intros [->|[?|?]]; tauto.
  - simpl. f_equal. rewrite IH. f_equal. apply first_seen_after_ext.
    intros u. rewrite elem_of_app, !elem_of_cons, elem_of_app. tauto.
Qed.

Lemma first_seen_after_elem o l r :
  r ∈ first_seen_after o l -> r ∈ l /\ URL r ∉ o.
Proof.
  revert o. induction l as [|x l IH]; intros o; simpl.
  - by intros ?%elem_of_nil.
  - destruct (bool_decide_reflect (URL x ∈ o)) as [Hin|Hin].
    + intros [? ?]%IH. split; [by right|done].
    + intros [->|[? Hn]%IH]%elem_of_cons; [split; [by left|done]|].
      split; [by right|]. intros ?. apply Hn. by right.
Qed.

Lemma first_seen_after_urls o l u :
  u ∈ URL <$> first_seen_after o l <-> u ∈ URL <$> l /\ u ∉ o.
Proof.
  revert o. induction l as [|x l IH]; intros o; simpl.
  - rewrite elem_of_nil. tauto.
  - destruct (bool_decide_reflect (URL x ∈ o)) as [Hin|Hin].
    + rewrite IH, elem_of_cons. split; [tauto|].
      intros [[->|?] ?]; tauto.
    + rewrite fmap_cons, !elem_of_cons, IH, elem_of_cons.
      destruct (decide (u = URL x)) as [->|]; tauto.
Qed.

Lemma first_seen_after_NoDup o l : NoDup (URL <$> first_seen_after o l).
Proof.
  revert o. induction l as [|x l IH]; intros o; simpl; [constructor|].
  destruct (bool_decide_reflect (URL x ∈ o)) as [Hin|Hin]; [apply IH|].
  rewrite fmap_cons. constructor; [|apply IH].
  rewrite first_seen_after_urls, elem_of_cons. tauto.
Qed.

Lemma first_seen_after_sublist o l : first_seen_after o l `sublist_of` l.
Proof.
  revert o. induction l as [|x l IH]; intros o; simpl; [done|].
  destruct (bool_decide_reflect (URL x ∈ o)).
  - by apply sublist_cons.
  - by apply sublist_skip.
Qed.

Lemma first_seen_after_nil o l :
  first_seen_after o l = [] <-> forall r, r ∈ l -> URL r ∈ o.
Proof.
  induction l as [|x l IH]; simpl.
  - split; [by intros _ r ?%elem_of_nil|done].
  - destruct (bool_decide_reflect (URL x ∈ o)) as [Hin|Hin].
    + rewrite IH. split.
      * intros H r [->|?]%elem_of_cons; [done|by apply H].
      * intros H r ?. apply H. by right.
    + split; [done|]. intros H. destruct Hin. apply H. by left.
Qed.

Lemma first_seen_after_id o l :
  NoDup (URL <$> l) -> (forall r, r ∈ l -> URL r ∉ o) ->
  first_seen_after o l = l.
Proof.
  revert o. induction l as [|x l IH]; intros o Hnd Hfresh; simpl; [done|].
  rewrite fmap_cons in Hnd. apply NoDup_cons in Hnd as [Hx Hnd].
  rewrite bool_decide_eq_false_2 by (apply Hfresh; by left).
  f_equal. apply IH; [done|]. intros r Hr [Heq|?]%elem_of_cons.
  - apply Hx. rewrite <- Heq. by apply list_elem_of_fmap_2.
  - apply (Hfresh r); [by right|done].
Qed.

(** A record kept by [first_seen_after] is the first of the stream with its
    URL. *)
Lemma first_seen_after_first o l r :
  r ∈ first_seen_after o l ->
  exists i, l !! i = Some r
    /\ forall j x, (j < i)%nat -> l !! j = Some x -> URL x <> URL r.
Proof.
  revert o. induction l as [|x l IH]; intros o; simpl.
  - by intros ?%elem_of_nil.
  - assert (Hlater : forall o', URL x ∈ o' -> r ∈ first_seen_after o' l ->
              exists i, (x :: l) !! i = Some r
                /\ forall j y, (j < i)%nat -> (x :: l) !! j = Some y ->
                               URL y <> URL r).
    { intros o' Hx Hr. destruct (first_seen_after_elem o' l r Hr) as [_ Hfresh].
      destruct (IH o' Hr) as (i & Hi & Hfirst). exists (S i). split; [done|].
      intros [|j] y Hj; simpl.
      - intros [= <-] Heq. apply Hfresh. by rewrite <- Heq.
      - apply Hfirst. lia. }
    destruct (bool_decide_reflect (URL x ∈ o)) as [Hin|Hin]; [by apply Hlater|].
    intros [->|Hr]%elem_of_cons.
    + exists 0%nat. split; [done|]. intros j y Hj. lia.
    + apply (Hlater (URL x :: o)); [by left|done].
Qed.

(** ** Page numbers *)

Lemma wrap64_small z : - 2 ^ 63 <= z <= maxInt -> wrap64 z = z.
Proof. unfold wrap64, maxInt. intros H. rewrite Z.mod_small; lia. Qed.

Lemma pageNums_S k : pageNums (S k) = pageNums k ++ [Z.of_nat (S k)].
Proof. unfold pageNums. by rewrite seq_S, map_app. Qed.

Lemma elem_of_pageNums k p : p ∈ pageNums k <-> 1 <= p <= Z.of_nat k.
Proof.
  unfold pageNums. rewrite list_elem_of_In, in_map_iff. split.
  - intros (n & <- & Hn%in_seq). lia.
  - intros H. exists (Z.to_nat p). split; [lia|]. apply in_seq. lia.
Qed.

(** ** addProductsWithoutDuplicates appends the first-seen records that fit *)

Lemma addLoop_spec pageProducts : forall products seen addedCount maxProducts observed,
  (forall u, u ∈ seen <-> u ∈ observed) ->
  exists seen',
    addLoop products seen addedCount maxProducts pageProducts
    = (products ++ take (Z.to_nat (maxProducts - len products))
                        (first_seen_after observed pageProducts),
       seen',
       addedCount + len (take (Z.to_nat (maxProducts - len products))
                              (first_seen_after observed pageProducts)))
    /\ forall u, u ∈ seen' <->
         u ∈ (URL <$> take (Z.to_nat (maxProducts - len products))
                           (first_seen_after observed pageProducts)) ++ observed.
Proof.
  induction pageProducts as [|r rest IH];
    intros products seen addedCount maxProducts observed Hseen.
  - exists seen. simpl. rewrite take_nil, app_nil_r. unfold len. simpl.
    split; [f_equal; lia|done].
  - cbn [addLoop]. rewrite Z.geb_leb.
    destruct (Z.leb_spec maxProducts (len products)) as [Hfull|Hroom].
    + replace (Z.to_nat (maxProducts - len products)) with 0%nat by lia.
      exists seen. rewrite !take_0, app_nil_r. unfold len. simpl.
      split; [f_equal; lia|done].
    + replace (Z.to_nat (maxProducts - len products))
        with (S (Z.to_nat (maxProducts - len (products ++ [r]))))
        by (symmetry; by apply room_succ).
      cbn [first_seen_after]. destruct (decide (URL r ∈ seen)) as [Hin|Hnew].
      * rewrite bool_decide_eq_true_2 by (by apply Hseen).
        destruct (IH products seen addedCount maxProducts observed Hseen)
          as (seen' & Heq & Hseen').
        revert Heq Hseen'.
        replace (Z.to_nat (maxProducts - len products))
          with (S (Z.to_nat (maxProducts - len (products ++ [r]))))
          by (symmetry; by apply room_succ).
        intros Heq Hseen'. by exists seen'.
      * rewrite bool_decide_eq_false_2 by (by rewrite <- Hseen).
        destruct (IH (products ++ [r]) ({[URL r]} ∪ seen) (addedCount + 1)
                     maxProducts (URL r :: observed)) as (seen' & Heq & Hseen').
        { intros u. rewrite elem_of_union, elem_of_singleton, elem_of_cons, Hseen.
          tauto. }
        exists seen'. rewrite Heq. cbn [take]. split.
        -- rewrite <- app_assoc. simpl. f_equal. unfold len. simpl. lia.
        -- intros u. rewrite Hseen', fmap_cons, !elem_of_app, !elem_of_cons.
           tauto.
Qed.

Lemma addProductsWithoutDuplicates_spec products pageProducts seen maxProducts :
  (forall u, u ∈ seen <-> u ∈ URL <$> products) ->
  exists seen',
    addProductsWithoutDuplicates products pageProducts seen maxProducts
    = (products ++ take (Z.to_nat (maxProducts - len products))
                        (first_seen_after (URL <$> products) pageProducts),
       seen',
       len (take (Z.to_nat (maxProducts - len products))
                 (first_seen_after (URL <$> products) pageProducts)))
    /\ forall u, u ∈ seen' <->
         u ∈ URL <$> (products ++ take (Z.to_nat (maxProducts - len products))
                        (first_seen_after (URL <$> products) pageProducts)).
Proof.
  intros Hseen. unfold addProductsWithoutDuplicates.
  destruct (addLoop_spec pageProducts products seen 0 maxProducts
              (URL <$> products) Hseen) as (seen' & Heq & Hseen').
  exists seen'. rewrite Heq. split; [done|].
  intros u. rewrite Hseen', fmap_app, !elem_of_app. tauto.
Qed.

(** ** The loop invariant *)

Lemma take_short {A} (n : nat) (l : list A) :
  (length (take n l) < n)%nat -> take n l = l.
Proof. rewrite length_take. intros H. apply take_ge. lia. Qed.

Section Loop.
Variable extract : Z -> list Product * option error.
Variable maxProducts : Z.

Local Abbreviation Inv := (Inv extract maxProducts).
Local Abbreviation finished := (finished extract maxProducts).
Local Abbreviation reachable := (reachable extract maxProducts).
Local Abbreviation room := (room maxProducts).

Lemma Inv_initial : Inv initial.
Proof.
  split; simpl.
  - unfold first_seen, stream_of. simpl. by rewrite take_nil.
  - intros u. rewrite elem_of_empty, elem_of_nil. tauto.
  - by intros p ?%elem_of_nil.
  - lia.
Qed.

Lemma stream_of_snoc log p :
  stream_of extract (log ++ [p]) = stream_of extract log ++ fst (extract p).
Proof.
  unfold stream_of. rewrite map_app, concat_app. simpl. by rewrite app_nil_r.
Qed.

Lemma stream_of_elem log r :
  r ∈ stream_of extract log -> exists p, p ∈ log /\ r ∈ fst (extract p).
Proof.
  unfold stream_of. induction log as [|q log IH]; simpl.
  - by intros ?%elem_of_nil.
  - intros [?|[p [? ?]]%IH]%elem_of_app.
    + exists q. split; [by left|done].
    + exists p. split; [by right|done].
Qed.

(** Appending the survivors of one more page keeps the catalog equal to the
    first-seen records of everything fetched, cut at the budget. *)
Lemma Inv_append st pageProducts :
  Inv st -> len (products st) < maxProducts ->
  fst (extract (page st)) = pageProducts ->
  products st
    ++ take (Z.to_nat (maxProducts - len (products st)))
            (first_seen_after (URL <$> products st) pageProducts)
  = take (Z.to_nat maxProducts)
         (first_seen (stream_of extract (fetched st ++ [page st]))).
Proof.
  intros HI Hroom Hpage.
  assert (Hall : products st = first_seen (stream_of extract (fetched st))).
  { rewrite (inv_products _ _ st HI). apply take_short.
    rewrite <- (inv_products _ _ st HI). unfold len in Hroom. lia. }
  rewrite stream_of_snoc, Hpage. unfold first_seen.
  rewrite first_seen_after_app, take_app. fold (first_seen (stream_of extract (fetched st))).
  rewrite <- Hall. rewrite (take_ge (products st)) by (unfold len in Hroom; lia).
  f_equal.
  replace (Z.to_nat maxProducts - length (products st))%nat
    with (Z.to_nat (maxProducts - len (products st))) by (unfold len; lia).
  f_equal. apply first_seen_after_ext. intros u.
  rewrite app_nil_r, Hall. unfold first_seen.
  rewrite first_seen_after_urls, elem_of_nil. tauto.
Qed.

(** A page that is not empty adds a record to an empty catalog. *)
Lemma first_page_adds (pageProducts : list Product) :
  0 < maxProducts -> pageProducts <> [] ->
  take (Z.to_nat (maxProducts - 0)) (first_seen_after [] pageProducts) <> [].
Proof.
  intros Hmax Hne. destruct pageProducts as [|r rest]; [done|].
  cbn [first_seen_after]. rewrite bool_decide_eq_false_2 by apply not_elem_of_nil.
  destruct (Z.to_nat (maxProducts - 0)) eqn:E; [lia|done].
Qed.

Lemma iteration_Continue st st' :
  Inv st -> iteration extract maxProducts st = Continue st' ->
  Inv st'
  /\ (length (products st) < length (products st') <= Z.to_nat maxProducts)%nat
  /\ len (products st) < maxProducts
  /\ snd (extract (page st)) = None
  /\ fetched st' = fetched st ++ [page st]
  /\ page st' = wrap64 (page st + 1).
Proof.
  intros HI. unfold iteration.
  destruct (Z.ltb_spec (len (products st)) maxProducts) as [Hroom|]; [|done].
  destruct (extract (page st)) as [pageProducts [e|]] eqn:Hx; [done|].
  destruct (Z.eqb_spec (len pageProducts) 0) as [|Hne]; [done|].
  destruct (addProductsWithoutDuplicates_spec (products st) pageProducts
              (seen st) maxProducts (inv_seen _ _ st HI)) as (seen' & Heq & Hseen').
  rewrite Heq. clear Heq.
  pose proof (Inv_append st pageProducts HI Hroom) as Happ.
  rewrite Hx in Happ. specialize (Happ eq_refl).
  set (new := take _ (first_seen_after _ pageProducts)) in *.
  destruct ((len new =? 0) && (len (products st ++ new) >? 0)) eqn:Hc; [done|].
  intros [= <-]. simpl.
  assert (Hnew : (0 < length new)%nat).
  { apply andb_false_iff in Hc as [Hc|Hc].
    - apply Z.eqb_neq in Hc. unfold len in Hc. lia.
    - rewrite Z.gtb_ltb in Hc. apply Z.ltb_ge in Hc.
      rewrite len_app in Hc. pose proof (len_nonneg new).
      pose proof (len_nonneg (products st)).
      destruct (products st) as [|x l] eqn:Hp; [|unfold len in Hc; simpl in Hc; lia].
      assert (new <> []); [|destruct new; [done|simpl; lia]].
      subst new. simpl. apply first_page_adds.
      + unfold len in Hroom. simpl in Hroom. lia.
      + intros ->. by apply Hne. }
  repeat split; simpl; try done.
  - intros ?%Hseen'. done.
  - intros ?. by apply Hseen'.
  - intros p [?|Hp%list_elem_of_singleton]%elem_of_app;
      [by apply (inv_ok _ _ st HI)|]. subst p. by rewrite Hx.
  - pose proof (inv_progress _ _ st HI). rewrite !length_app. simpl. lia.
  - rewrite length_app. lia.
  - rewrite Happ, length_take. lia.
Qed.

Lemma iteration_Exit_log st result err log :
  iteration extract maxProducts st = Exit result err log ->
  (maxProducts <= len (products st) /\ log = fetched st)
  \/ (len (products st) < maxProducts /\ log = fetched st ++ [page st]).
Proof.
  unfold iteration.
  destruct (Z.ltb_spec (len (products st)) maxProducts) as [Hroom|];
    [|intros [= _ _ <-]; by left].
  destruct (extract (page st)) as [pageProducts [e|]];
    [intros [= _ _ <-]; by right|].
  destruct (len pageProducts =? 0); [intros [= _ _ <-]; by right|].
  destruct (addProductsWithoutDuplicates _ _ _ _) as [[products' seen'] added].
  destruct ((added =? 0) && (len products' >? 0)); [|done].
  intros [= _ _ <-]; by right.
Qed.

Lemma iteration_Exit st result err log :
  Inv st -> iteration extract maxProducts st = Exit result err log ->
  finished (mkRun (Some (result, err)) log).
Proof.
  intros HI. unfold iteration.
  destruct (Z.ltb_spec (len (products st)) maxProducts) as [Hroom|].
  2:{ intros [= <- <- <-]. apply finished_ok; simpl.
      - apply (inv_ok _ _ st HI).
      - by rewrite <- (inv_products _ _ st HI). }
  destruct (extract (page st)) as [pageProducts [e|]] eqn:Hx.
  { intros [= <- <- <-]. eapply finished_error; simpl; [done| |by rewrite Hx|done].
    apply (inv_ok _ _ st HI). }
  assert (Hok : forall p, p ∈ fetched st ++ [page st] -> snd (extract p) = None).
  { intros p [?|Hp%list_elem_of_singleton]%elem_of_app;
      [by apply (inv_ok _ _ st HI)|]. subst p. by rewrite Hx. }
  pose proof (Inv_append st pageProducts HI Hroom) as Happ.
  rewrite Hx in Happ. specialize (Happ eq_refl).
  destruct (Z.eqb_spec (len pageProducts) 0) as [Hempty|Hne].
  { intros [= <- <- <-]. apply finished_ok; simpl; [done|].
    destruct pageProducts; [|done]. rewrite <- Happ. simpl.
    by rewrite take_nil, app_nil_r. }
  destruct (addProductsWithoutDuplicates_spec (products st) pageProducts
              (seen st) maxProducts (inv_seen _ _ st HI)) as (seen' & Heq & _).
  rewrite Heq. clear Heq.
  destruct (_ && _); [|done].
  intros [= <- <- <-]. apply finished_ok; simpl; [done|]. by rewrite Happ.
Qed.

Lemma reachable_Inv st : reachable st -> Inv st.
Proof.
  induction 1 as [|st st' _ IH Hstep]; [apply Inv_initial|].
  by destruct (iteration_Continue st st' IH Hstep).
Qed.

Lemma scrapeLoop_S fuel st :
  scrapeLoop extract (S fuel) maxProducts st
  = match iteration extract maxProducts st with
    | Continue st' => scrapeLoop extract fuel maxProducts st'
    | Exit result err log => mkRun (Some (result, err)) log
    end.
Proof. reflexivity. Qed.

Lemma scrapeLoop_exit fuel : forall st,
  reachable st -> (room st < fuel)%nat ->
  exists st_end result err log,
    reachable st_end
    /\ iteration extract maxProducts st_end = Exit result err log
    /\ scrapeLoop extract fuel maxProducts st = mkRun (Some (result, err)) log.
Proof.
  unfold room. induction fuel as [|fuel IH]; intros st Hst Hfuel; [lia|].
  simpl. destruct (iteration extract maxProducts st) as [st'|result err log] eqn:Hstep.
  - destruct (iteration_Continue st st' (reachable_Inv st Hst) Hstep)
      as (_ & Hgrow & _).
    apply IH; [by eapply reachable_next|lia].
  - by exists st, result, err, log.
Qed.

Lemma scrapeLoop_fuel fuel1 : forall fuel2 st,
  Inv st -> (room st < fuel1)%nat -> (room st < fuel2)%nat ->
  scrapeLoop extract fuel1 maxProducts st = scrapeLoop extract fuel2 maxProducts st.
Proof.
  unfold room. induction fuel1 as [|fuel1 IH]; intros fuel2 st HI H1 H2; [lia|].
  destruct fuel2 as [|fuel2]; [lia|]. simpl.
  destruct (iteration extract maxProducts st) as [st'|result err log] eqn:Hstep;
    [|done].
  destruct (iteration_Continue st st' HI Hstep) as (HI' & Hgrow & _).
  apply IH; [done|lia|lia].
Qed.

Lemma reachable_run st fuel :
  reachable st -> (room st < fuel)%nat ->
  scrapeLoop extract fuel maxProducts st = scrapeProducts extract maxProducts.
Proof.
  intros Hst. revert fuel. unfold scrapeProducts.
  induction Hst as [|st st' Hst IH Hstep]; intros fuel Hfuel.
  - apply scrapeLoop_fuel; [apply Inv_initial|done|unfold room; simpl; lia].
  - destruct (iteration_Continue st st' (reachable_Inv st Hst) Hstep)
      as (HI' & Hgrow & _).
    rewrite <- (IH (S (S (room st)))) by lia. rewrite scrapeLoop_S, Hstep.
    apply scrapeLoop_fuel; [done|done|unfold room; lia].
Qed.

Lemma scrapeProducts_exit :
  exists st_end result err log,
    reachable st_end
    /\ iteration extract maxProducts st_end = Exit result err log
    /\ scrapeProducts extract maxProducts = mkRun (Some (result, err)) log.
Proof.
  apply scrapeLoop_exit; [apply reachable_initial|unfold room; simpl; lia].
Qed.

Lemma scrapeProducts_finished : finished (scrapeProducts extract maxProducts).
Proof.
  destruct scrapeProducts_exit as (st & result & err & log & Hst & Hstep & ->).
  eapply iteration_Exit; [by apply reachable_Inv|done].
Qed.

(** A call returns what the iteration that leaves the loop returns. *)
Lemma run_of_exit st result err log :
  reachable st -> iteration extract maxProducts st = Exit result err log ->
  scrapeProducts extract maxProducts = mkRun (Some (result, err)) log.
Proof.
  intros Hst Hexit.
  rewrite <- (reachable_run st (S (room st))) by (done || lia).
  by rewrite scrapeLoop_S, Hexit.
Qed.

(** An iteration that receives a page with records in it: it leaves the loop
    when none of them survives, and goes on with the survivors appended
    otherwise. *)
Lemma iteration_page st pageProducts :
  Inv st -> len (products st) < maxProducts ->
  extract (page st) = (pageProducts, None) -> pageProducts <> [] ->
  exists seen',
    iteration extract maxProducts st
    = match take (Z.to_nat (maxProducts - len (products st)))
                 (first_seen_after (URL <$> products st) pageProducts) with
      | [] => Exit (products st) None (fetched st ++ [page st])
      | r :: new =>
          Continue (mkState (products st ++ r :: new) (wrap64 (page st + 1))
                            seen' (fetched st ++ [page st]))
      end.
Proof.
  intros HI Hroom Hx Hne. unfold iteration.
  destruct (Z.ltb_spec (len (products st)) maxProducts) as [_|]; [|lia].
  rewrite Hx.
  destruct (Z.eqb_spec (len pageProducts) 0) as [Hempty|_].
  { destruct pageProducts; [done|]. unfold len in Hempty. simpl in Hempty. lia. }
  destruct (addProductsWithoutDuplicates_spec (products st) pageProducts
              (seen st) maxProducts (inv_seen _ _ st HI)) as (seen' & Heq & _).
  rewrite Heq. clear Heq. exists seen'.
  destruct (take _ (first_seen_after _ pageProducts)) as [|r new] eqn:Hnew.
  - rewrite app_nil_r.
    destruct (products st) as [|x l] eqn:Hp; [|done].
    exfalso. revert Hnew. apply first_page_adds; [|done].
    unfold len in Hroom. simpl in Hroom. lia.
  - replace (len (r :: new) =? 0) with false; [done|].
    symmetry. apply Z.eqb_neq. unfold len. simpl. lia.
Qed.

(** With a budget that fits an [int], the pages requested so far are
    1, 2, ..., and [page] is the next number. *)
Lemma reachable_numbered st :
  maxProducts <= maxInt -> reachable st ->
  fetched st = pageNums (length (fetched st))
  /\ page st = wrap64 (1 + len (fetched st))
  /\ (len (products st) < maxProducts -> page st = 1 + len (fetched st)).
Proof.
  intros Hmax Hst.
  assert (Hpage : forall st, Inv st -> page st = wrap64 (1 + len (fetched st)) ->
            len (products st) < maxProducts -> page st = 1 + len (fetched st)).
  { intros st0 HI -> Hroom. pose proof (inv_progress _ _ st0 HI).
    apply wrap64_small. unfold len, maxInt in *. lia. }
  induction Hst as [|st st' Hst (IHlog & IHpage & _) Hstep].
  - by repeat split.
  - pose proof (reachable_Inv st Hst) as HI.
    destruct (iteration_Continue st st' HI Hstep)
      as (HI' & _ & Hroom & _ & Hlog & Hnext).
    pose proof (Hpage st HI IHpage Hroom) as Hp.
    assert (Hw : page st' = wrap64 (1 + len (fetched st'))).
    { rewrite Hnext, Hlog, len_app, Hp. f_equal. unfold len. simpl. lia. }
    split; [|split; [done|by apply Hpage]].
    rewrite Hlog, length_app. simpl.
    rewrite Nat.add_1_r, pageNums_S, <- IHlog, Hp. do 2 f_equal.
    unfold len. lia.
Qed.

Lemma scrapeProducts_numbered :
  maxProducts <= maxInt ->
  calls (scrapeProducts extract maxProducts)
  = pageNums (length (calls (scrapeProducts extract maxProducts))).
Proof.
  intros Hmax.
  destruct scrapeProducts_exit as (st & result & err & log & Hst & Hstep & ->).
  destruct (reachable_numbered st Hmax Hst) as (Hlog & _ & Hpage). simpl.
  destruct (iteration_Exit_log st result err log Hstep) as [[_ ->]|[Hroom ->]];
    [done|].
  rewrite length_app. simpl.
  rewrite Nat.add_1_r, pageNums_S, <- Hlog, (Hpage Hroom). do 2 f_equal.
  unfold len. lia.
Qed.

(** An iteration that receives an empty page leaves the loop with the
    catalog as it is. *)
Lemma iteration_empty st :
  len (products st) < maxProducts -> extract (page st) = ([], None) ->
  iteration extract maxProducts st
  = Exit (products st) None (fetched st ++ [page st]).
Proof.
  intros Hroom Hx. unfold iteration.
  destruct (Z.ltb_spec (len (products st)) maxProducts) as [_|]; [|lia].
  by rewrite Hx.
Qed.

(** An iteration that finds the budget used up leaves the loop. *)
Lemma iteration_full st :
  maxProducts <= len (products st) ->
  iteration extract maxProducts st = Exit (products st) None (fetched st).
Proof.
  intros Hfull. unfold iteration.
  by destruct (Z.ltb_spec (len (products st)) maxProducts) as [|_]; [lia|].
Qed.

(** An iteration that receives only URLs of the catalog leaves the loop with
    the catalog as it is. *)
Lemma iteration_no_new st pageProducts :
  Inv st -> len (products st) < maxProducts ->
  extract (page st) = (pageProducts, None) ->
  (forall r, r ∈ pageProducts -> URL r ∈ URL <$> products st) ->
  iteration extract maxProducts st
  = Exit (products st) None (fetched st ++ [page st]).
Proof.
  intros HI Hroom Hx Hold.
  destruct pageProducts as [|r0 rest]; [by apply iteration_empty|].
  destruct (iteration_page st (r0 :: rest) HI Hroom Hx) as [seen' ->]; [done|].
  apply first_seen_after_nil in Hold. rewrite Hold. by rewrite take_nil.
Qed.

(** An iteration that receives a page of new, pairwise different URLs appends
    as many of its records as the budget allows and goes on. *)
Lemma iteration_all_new st pageProducts :
  Inv st -> len (products st) < maxProducts ->
  extract (page st) = (pageProducts, None) -> pageProducts <> [] ->
  NoDup (URL <$> pageProducts) ->
  (forall r, r ∈ pageProducts -> URL r ∉ URL <$> products st) ->
  exists seen',
    iteration extract maxProducts st
    = Continue (mkState
        (products st
           ++ take (Z.to_nat (maxProducts - len (products st))) pageProducts)
        (wrap64 (page st + 1)) seen' (fetched st ++ [page st])).
Proof.
  intros HI Hroom Hx Hne Hnd Hfresh.
  destruct (iteration_page st pageProducts HI Hroom Hx Hne) as [seen' ->].
  exists seen'. rewrite (first_seen_after_id _ _ Hnd Hfresh).
  destruct pageProducts as [|r rest]; [done|].
  destruct (Z.to_nat (maxProducts - len (products st))) eqn:E; [lia|done].
Qed.

(** The log of requested pages only grows. *)
Lemma iteration_Continue_log st st' :
  iteration extract maxProducts st = Continue st' ->
  len (products st) < maxProducts /\ fetched st' = fetched st ++ [page st].
Proof.
  unfold iteration.
  destruct (Z.ltb_spec (len (products st)) maxProducts) as [Hroom|]; [|done].
  destruct (extract (page st)) as [pageProducts [e|]]; [done|].
  destruct (len pageProducts =? 0); [done|].
  destruct (addProductsWithoutDuplicates _ _ _ _) as [[products' seen'] added].
  destruct ((added =? 0) && (len products' >? 0)); [done|].
  by intros [= <-].
Qed.

Lemma calls_prefix fuel : forall st,
  exists tail, calls (scrapeLoop extract fuel maxProducts st) = fetched st ++ tail.
Proof.
  induction fuel as [|fuel IH]; intros st.
  - exists []. simpl. by rewrite app_nil_r.
  - rewrite scrapeLoop_S.
    destruct (iteration extract maxProducts st) as [st'|result err log] eqn:Hstep.
    + destruct (iteration_Continue_log st st' Hstep) as [_ Hlog].
      destruct (IH st') as [tail ->]. exists (page st :: tail).
      by rewrite Hlog, <- app_assoc.
    + destruct (iteration_Exit_log st result err log Hstep) as [[_ ->]|[_ ->]].
      * exists []. simpl. by rewrite app_nil_r.
      * by exists [page st].
Qed.

Lemma calls_page fuel st :
  len (products st) < maxProducts ->
  exists tail,
    calls (scrapeLoop extract (S fuel) maxProducts st)
    = fetched st ++ page st :: tail.
Proof.
  intros Hroom. rewrite scrapeLoop_S.
  destruct (iteration extract maxProducts st) as [st'|result err log] eqn:Hstep.
  - destruct (iteration_Continue_log st st' Hstep) as [_ Hlog].
    destruct (calls_prefix fuel st') as [tail ->]. exists tail.
    by rewrite Hlog, <- app_assoc.
  - destruct (iteration_Exit_log st result err log Hstep) as [[? _]|[_ ->]];
      [lia|]. simpl. by exists [].
Qed.

(** Why an iteration leaves the loop: the budget is used up, the page failed
    to load, the page is empty, or the page holds nothing new. *)
Lemma iteration_Exit_why st result err log :
  Inv st -> iteration extract maxProducts st = Exit result err log ->
  maxProducts <= len (products st)
  \/ (exists e, snd (extract (page st)) = Some e)
  \/ fst (extract (page st)) = []
  \/ (products st <> []
      /\ forall r, r ∈ fst (extract (page st)) -> URL r ∈ URL <$> products st).
Proof.
  intros HI Hexit.
  destruct (Z.le_gt_cases maxProducts (len (products st))) as [|Hroom];
    [by left|right].
  destruct (extract (page st)) as [pageProducts [e|]] eqn:Hx;
    [left; by exists e|right]. simpl.
  destruct pageProducts as [|r0 rest]; [by left|right].
  destruct (iteration_page st (r0 :: rest) HI Hroom Hx) as [seen' Hpage];
    [done|]. rewrite Hexit in Hpage.
  destruct (take _ _) as [|r new] eqn:Hnew; [|done].
  assert (Hall : forall r, r ∈ r0 :: rest -> URL r ∈ URL <$> products st).
  { apply first_seen_after_nil.
    destruct (Z.to_nat (maxProducts - len (products st))) eqn:E; [lia|].
    by destruct (first_seen_after _ _). }
  split; [|done]. intros Hp. specialize (Hall r0). rewrite Hp in Hall.
  eapply not_elem_of_nil, Hall. by left.
Qed.

End Loop.

Lemma iteration_ext extract1 extract2 maxProducts st :
  (len (products st) < maxProducts -> extract1 (page st) = extract2 (page st)) ->
  iteration extract1 maxProducts st = iteration extract2 maxProducts st.
Proof.
  intros Hsame. unfold iteration.
  destruct (Z.ltb_spec (len (products st)) maxProducts) as [Hroom|]; [|done].
  by rewrite (Hsame Hroom).
Qed.

Lemma scrapeLoop_agree extract1 extract2 maxProducts fuel : forall st,
  (forall p, p ∈ calls (scrapeLoop extract1 fuel maxProducts st) ->
             extract1 p = extract2 p) ->
  scrapeLoop extract1 fuel maxProducts st = scrapeLoop extract2 fuel maxProducts st.
Proof.
  induction fuel as [|fuel IH]; intros st Hsame; [done|].
  assert (Hstep : iteration extract1 maxProducts st
                  = iteration extract2 maxProducts st).
  { apply iteration_ext. intros Hroom. apply Hsame.
    destruct (calls_page extract1 maxProducts fuel st Hroom) as [tail ->].
    apply elem_of_app. right. by left. }
  rewrite scrapeLoop_S in Hsame. rewrite !scrapeLoop_S, <- Hstep.
  destruct (iteration extract1 maxProducts st) as [st'|result err log]; [|done].
  by apply IH.
Qed.

Lemma reachable_after_page1 extract maxProducts st :
  iteration extract maxProducts initial = Continue st ->
  reachable extract maxProducts (after_page1 extract maxProducts).
Proof.
  intros Hstep. unfold after_page1. rewrite Hstep.
  eapply reachable_next; [apply reachable_initial|done].
Qed.

(** * Properties of the catalog *)

(** C1. Whenever a page that [scrapeProducts] requests makes
    [extractProductsFromPage] return an error, [scrapeProducts] returns a nil
    slice, not the records of the pages before, and an error that carries
    the number of that page and wraps the extractor's error. *)
Theorem scrapeProducts_error_propagates extract maxProducts p e :
  p ∈ calls (scrapeProducts extract maxProducts) ->
  snd (extract p) = Some e ->
  ret (scrapeProducts extract maxProducts)
  = Some ([], Some (Errorf "error scraping page %d: %w"%string p e)).
Proof.
  intros Hcall Herr.
  destruct (scrapeProducts_finished extract maxProducts)
    as [Hok _|log q e' Hlog Hok Hq Hret].
  - rewrite (Hok p Hcall) in Herr. done.
  - rewrite Hlog in Hcall.
    apply elem_of_app in Hcall as [Hin|Hlast%list_elem_of_singleton].
    + rewrite (Hok p Hin) in Herr. done.
    + subst q. rewrite Hret. congruence.
Qed.

Lemma scrapeProducts_error_propagates_witness :
  ret (scrapeProducts pages_D 100)
  = Some ([], Some (Errorf "error scraping page %d: %w"%string 2
                      (Errorf "failed to navigate or evaluate page %d: %w"%string
                              2 load_error))).
Proof.
  apply (scrapeProducts_error_propagates pages_D 100 2).
  - vm_compute. right. left.
  - reflexivity.
Defined.

(** C2. No two records of the catalog [scrapeProducts] returns have the same
    URL.  When page 1 holds two records with one URL and the call succeeds
    with a positive budget, the first of the two heads the catalog and no
    other record of the catalog has that URL. *)
Theorem scrapeProducts_unique_urls extract maxProducts :
  (exists catalog err,
     ret (scrapeProducts extract maxProducts) = Some (catalog, err)
     /\ NoDup (URL <$> catalog))
  /\ (forall a b catalog, 0 < maxProducts ->
        extract 1 = ([a; b], None) -> URL a = URL b ->
        ret (scrapeProducts extract maxProducts) = Some (catalog, None) ->
        exists others,
          catalog = a :: others /\ forall r, r ∈ others -> URL r <> URL a).
Proof.
  split.
  - destruct (scrapeProducts_finished extract maxProducts)
      as [_ Hret|log q e _ _ _ Hret]; rewrite Hret.
    + eexists _, _. split; [done|]. rewrite fmap_take.
      eapply sublist_NoDup; [apply first_seen_after_NoDup|apply sublist_take].
    + eexists _, _. split; [done|]. constructor.
  - intros a b catalog Hmax H1 Hab Hcat.
    destruct (scrapeProducts_finished extract maxProducts)
      as [_ Hret|log q e _ _ _ Hret]; rewrite Hret in Hcat; [|done].
    injection Hcat as <-.
    destruct (calls_page extract maxProducts (Z.to_nat maxProducts) initial)
      as [tail Hcalls]; [unfold len; simpl; lia|].
    fold (scrapeProducts extract maxProducts) in Hcalls. rewrite Hcalls.
    unfold stream_of, first_seen. simpl. rewrite H1. simpl.
    rewrite bool_decide_eq_true_2 by (rewrite Hab; by left).
    destruct (Z.to_nat maxProducts) as [|n] eqn:E; [lia|]. simpl.
    eexists. split; [done|]. intros r Hr.
    pose proof (elem_of_sublist _ _ _ Hr (sublist_take _ _)) as Hr'.
    apply first_seen_after_elem in Hr' as [_ Hfresh].
    intros Heq. apply Hfresh. rewrite Heq. by left.
Qed.

Lemma scrapeProducts_unique_urls_witness :
  exists others,
    [item "/products/a" "first"] = item "/products/a" "first" :: others
    /\ forall r, r ∈ others -> URL r <> "/products/a"%string.
Proof.
  apply (proj2 (scrapeProducts_unique_urls pages_B 100)
               (item "/products/a" "first") (item "/products/a" "second")).
  - lia.
  - reflexivity.
  - reflexivity.
  - vm_compute. reflexivity.
Defined.

(** C3. For a budget that is not negative, the catalog [scrapeProducts]
    returns has at most that many records.  With a budget of 5 and two pages
    of three records each, all six URLs different, the catalog is the three
    records of page 1 followed by the first two of page 2, and no third page
    is requested. *)
Theorem scrapeProducts_bounded :
  (forall extract maxProducts, 0 <= maxProducts ->
     exists catalog err,
       ret (scrapeProducts extract maxProducts) = Some (catalog, err)
       /\ len catalog <= maxProducts)
  /\ (forall extract page1 page2,
        extract 1 = (page1, None) -> extract 2 = (page2, None) ->
        length page1 = 3%nat -> length page2 = 3%nat ->
        NoDup (URL <$> page1 ++ page2) ->
        scrapeProducts extract 5
        = mkRun (Some (page1 ++ take 2 page2, None)) [1; 2]).
Proof.
  split.
  - intros extract maxProducts Hmax.
    destruct (scrapeProducts_finished extract maxProducts)
      as [_ Hret|log q e _ _ _ Hret]; rewrite Hret.
    + eexists _, _. split; [done|]. unfold len. rewrite length_take. lia.
    + eexists _, _. split; [done|]. unfold len. simpl. lia.
  - intros extract page1 page2 H1 H2 Hlen1 Hlen2 Hnd.
    destruct page1 as [|a [|b [|c [|]]]]; try done.
    destruct page2 as [|d [|e [|f [|]]]]; try done. clear Hlen1 Hlen2.
    rewrite fmap_app in Hnd. apply NoDup_app in Hnd as (Hnd1 & Hfresh & Hnd2).
    destruct (iteration_all_new extract 5 initial [a; b; c]
                (Inv_initial _ _) ltac:(done) H1 ltac:(done) Hnd1)
      as [seen1 Hstep1].
    { intros r _. apply not_elem_of_nil. }
    simpl in Hstep1. change (wrap64 (1 + 1)) with 2 in Hstep1.
    pose proof (reachable_next _ _ _ _ (reachable_initial _ _) Hstep1) as Hst1.
    destruct (iteration_all_new extract 5 _ [d; e; f]
                (reachable_Inv _ _ _ Hst1) ltac:(done) H2 ltac:(done) Hnd2)
      as [seen2 Hstep2].
    { intros r Hr Hin. apply (Hfresh (URL r)); [done|].
      by apply list_elem_of_fmap_2. }
    simpl in Hstep2. change (wrap64 (2 + 1)) with 3 in Hstep2.
    pose proof (reachable_next _ _ _ _ Hst1 Hstep2) as Hst2.
    apply (run_of_exit _ _ _ _ _ _ Hst2). by apply iteration_full.
Qed.

Lemma scrapeProducts_bounded_witness :
  (exists catalog err,
     ret (scrapeProducts pages_A 5) = Some (catalog, err) /\ len catalog <= 5)
  /\ scrapeProducts pages_A 5
     = mkRun (Some ([item_a; item_b; item_c; item_d; item_e], None)) [1; 2].
Proof.
  split.
  - apply (proj1 scrapeProducts_bounded pages_A 5). lia.
  - apply (proj2 scrapeProducts_bounded pages_A
                 [item_a; item_b; item_c] [item_d; item_e; item_f]);
      try reflexivity.
    apply (bool_decide_unpack _). vm_compute. exact I.
Defined.

(** C4. The loop of [scrapeProducts] ends for every behaviour of the
    extractor: any fuel above the budget yields the result of the call, and
    an iteration either makes the catalog longer, within the budget, or
    leaves the loop because the budget is used up, the page failed, the page
    is empty or the page holds no new URL. *)
Theorem scrapeProducts_terminates extract maxProducts :
  (forall fuel, (Z.to_nat maxProducts < fuel)%nat ->
     is_Some (ret (scrapeLoop extract fuel maxProducts initial))
     /\ scrapeLoop extract fuel maxProducts initial
        = scrapeProducts extract maxProducts)
  /\ (forall st, reachable extract maxProducts st ->
        match iteration extract maxProducts st with
        | Continue st' =>
            (length (products st) < length (products st')
             <= Z.to_nat maxProducts)%nat
        | Exit _ _ _ =>
            maxProducts <= len (products st)
            \/ (exists e, snd (extract (page st)) = Some e)
            \/ fst (extract (page st)) = []
            \/ (products st <> []
                /\ forall r, r ∈ fst (extract (page st)) ->
                             URL r ∈ URL <$> products st)
        end).
Proof.
  split.
  - intros fuel Hfuel.
    assert (Hrun : scrapeLoop extract fuel maxProducts initial
                   = scrapeProducts extract maxProducts).
    { apply reachable_run; [apply reachable_initial|].
      unfold room. simpl. lia. }
    split; [|done]. rewrite Hrun.
    destruct (scrapeProducts_exit extract maxProducts)
      as (st & result & err & log & _ & _ & ->). by eexists.
  - intros st Hst. pose proof (reachable_Inv _ _ st Hst) as HI.
    destruct (iteration extract maxProducts st) as [st'|result err log] eqn:Hstep.
    + by destruct (iteration_Continue _ _ st st' HI Hstep) as (_ & ? & _).
    + by eapply iteration_Exit_why.
Qed.

Lemma scrapeProducts_terminates_witness :
  (is_Some (ret (scrapeLoop pages_A 7 5 initial))
   /\ scrapeLoop pages_A 7 5 initial = scrapeProducts pages_A 5)
  /\ match iteration pages_A 5 initial with
     | Continue st' => (0 < length (products st') <= 5)%nat
     | Exit _ _ _ => False
     end.
Proof.
  split.
  - apply (proj1 (scrapeProducts_terminates pages_A 5) 7%nat). vm_compute. lia.
  - pose proof (proj2 (scrapeProducts_terminates pages_A 5) initial
                  (reachable_initial pages_A 5)) as H.
    destruct (iteration pages_A 5 initial) eqn:E; [exact H|].
    vm_compute in E. discriminate E.
Defined.

(** C5. No record whose URL is the empty string is in the catalog of the
    program: the filter at the end of [extractJSContent] drops such records
    from every page before the loop of [scrapeProducts] sees them. *)
Theorem scrape_excludes_empty_url render maxProducts :
  exists catalog err,
    ret (scrape render maxProducts) = Some (catalog, err)
    /\ forall r, URL r = ""%string -> r ∉ catalog.
Proof.
  unfold scrape.
  destruct (scrapeProducts_finished (Extractor.extractProductsFromPage render)
              maxProducts) as [_ Hret|log q e _ _ _ Hret]; rewrite Hret.
  - eexists _, _. split; [done|]. intros r Hurl Hr.
    pose proof (elem_of_sublist _ _ _ Hr (sublist_take _ _)) as Hr'.
    apply first_seen_after_elem in Hr' as [Hr' _].
    apply stream_of_elem in Hr' as (p & _ & Hp).
    unfold Extractor.extractProductsFromPage in Hp.
    destruct (render p) as [err|mapped]; simpl in Hp.
    + by apply elem_of_nil in Hp.
    + unfold Extractor.extractJSContent in Hp.
      apply list_elem_of_In, filter_In in Hp as [_ Hkeep].
      rewrite Hurl in Hkeep. done.
  - eexists _, _. split; [done|]. intros r _. apply not_elem_of_nil.
Qed.

Example scrape_storefront :
  scrape storefront 100 = mkRun (Some ([item_a; item_b], None)) [1; 2].
Proof. vm_compute. reflexivity. Qed.

(** The loop of [addProductsWithoutDuplicates] itself does not look at the
    URL: handed a record with an empty URL, it appends it. *)
Lemma addProductsWithoutDuplicates_appends_empty_url :
  fst (fst (addProductsWithoutDuplicates [] [item "" "no link"] ∅ 100))
  = [item "" "no link"].
Proof. reflexivity. Qed.

(** C6. When the page requested in some iteration holds only URLs that the
    catalog, not empty, already has, [scrapeProducts] returns that catalog
    with a nil error and that page is the last one requested.  With two
    records of different URLs on page 1 and the same two on page 2, the
    result is these two records after requests for pages 1 and 2 only. *)
Theorem scrapeProducts_stops_without_new_records extract maxProducts :
  (forall st pageProducts, reachable extract maxProducts st ->
     len (products st) < maxProducts ->
     extract (page st) = (pageProducts, None) ->
     products st <> [] ->
     (forall r, r ∈ pageProducts -> URL r ∈ URL <$> products st) ->
     scrapeProducts extract maxProducts
     = mkRun (Some (products st, None)) (fetched st ++ [page st]))
  /\ (forall a b, 2 < maxProducts -> URL a <> URL b ->
        extract 1 = ([a; b], None) -> extract 2 = ([a; b], None) ->
        scrapeProducts extract maxProducts = mkRun (Some ([a; b], None)) [1; 2]).
Proof.
  assert (Hgen : forall st pageProducts, reachable extract maxProducts st ->
     len (products st) < maxProducts ->
     extract (page st) = (pageProducts, None) ->
     products st <> [] ->
     (forall r, r ∈ pageProducts -> URL r ∈ URL <$> products st) ->
     scrapeProducts extract maxProducts
     = mkRun (Some (products st, None)) (fetched st ++ [page st])).
  { intros st pageProducts Hst Hroom Hx _ Hold.
    apply (run_of_exit _ _ st); [done|].
    eapply iteration_no_new; [by apply reachable_Inv|done..]. }
  split; [done|]. intros a b Hmax Hab H1 H2.
  assert (Hnd : NoDup (URL <$> [a; b])).
  { rewrite !fmap_cons. repeat constructor.
    - by intros ?%list_elem_of_singleton.
    - apply not_elem_of_nil. }
  assert (Hroom : len (products initial) < maxProducts)
    by (unfold len; simpl; lia).
  destruct (iteration_all_new extract maxProducts initial [a; b]
              (Inv_initial _ _) Hroom H1 ltac:(done) Hnd) as [seen1 Hstep1].
  { intros r _. apply not_elem_of_nil. }
  replace (Z.to_nat (maxProducts - len (products initial)))
    with (S (S (Z.to_nat (maxProducts - 2)))) in Hstep1
    by (unfold len; simpl; lia).
  simpl in Hstep1. rewrite take_nil in Hstep1.
  change (wrap64 (1 + 1)) with 2 in Hstep1.
  apply (Hgen _ [a; b] (reachable_next _ _ _ _ (reachable_initial _ _) Hstep1)).
  - unfold len. simpl. lia.
  - done.
  - done.
  - intros r Hr. by apply list_elem_of_fmap_2.
Qed.

Lemma scrapeProducts_stops_without_new_records_witness :
  scrapeProducts pages_C' 100 = mkRun (Some ([item_a; item_b], None)) [1; 2]
  /\ scrapeProducts pages_C 100 = mkRun (Some ([item_a; item_b], None)) [1; 2].
Proof.
  split.
  - apply (proj1 (scrapeProducts_stops_without_new_records pages_C' 100)
                 (after_page1 pages_C' 100) [item_b]).
    + eapply reachable_after_page1. vm_compute. reflexivity.
    + vm_compute. reflexivity.
    + reflexivity.
    + vm_compute. discriminate.
    + intros r Hr. apply list_elem_of_singleton in Hr as ->.
      vm_compute. right. left.
  - apply (proj2 (scrapeProducts_stops_without_new_records pages_C 100)
                 item_a item_b).
    + lia.
    + vm_compute. discriminate.
    + reflexivity.
    + reflexivity.
Defined.

(** C7. When [extractProductsFromPage] returns an empty list and no error
    for the page requested in some iteration, [scrapeProducts] returns the
    catalog accumulated until then with a nil error, and that page is the
    last one requested.  When page 1 is empty the result is an empty catalog
    and a nil error. *)
Theorem scrapeProducts_stops_on_empty_page extract maxProducts :
  (forall st, reachable extract maxProducts st ->
     len (products st) < maxProducts ->
     extract (page st) = ([], None) ->
     scrapeProducts extract maxProducts
     = mkRun (Some (products st, None)) (fetched st ++ [page st]))
  /\ (extract 1 = ([], None) ->
      ret (scrapeProducts extract maxProducts) = Some ([], None)).
Proof.
  assert (Hgen : forall st, reachable extract maxProducts st ->
            len (products st) < maxProducts ->
            extract (page st) = ([], None) ->
            scrapeProducts extract maxProducts
            = mkRun (Some (products st, None)) (fetched st ++ [page st])).
  { intros st Hst Hroom Hx. apply (run_of_exit _ _ st); [done|].
    by apply iteration_empty. }
  split; [done|]. intros Hx.
  destruct (Z.le_gt_cases maxProducts (len (products initial))) as [Hfull|Hroom].
  - rewrite (run_of_exit extract maxProducts initial [] None []); [done| |].
    + apply reachable_initial.
    + by apply iteration_full.
  - by rewrite (Hgen initial (reachable_initial _ _) Hroom Hx).
Qed.

Lemma scrapeProducts_stops_on_empty_page_witness :
  scrapeProducts pages_E2 100 = mkRun (Some ([item_a; item_b], None)) [1; 2]
  /\ ret (scrapeProducts pages_E 100) = Some ([], None).
Proof.
  split.
  - apply (proj1 (scrapeProducts_stops_on_empty_page pages_E2 100)
                 (after_page1 pages_E2 100)).
    + eapply reachable_after_page1. vm_compute. reflexivity.
    + vm_compute. reflexivity.
    + reflexivity.
  - apply (proj2 (scrapeProducts_stops_on_empty_page pages_E 100)). reflexivity.
Defined.

(** C8. For a budget that fits an [int], the catalog [scrapeProducts]
    returns without error is the sequence of the records of pages 1, 2, ...,
    k, page after page and each page in its own order, reduced to the first
    record of every URL and cut at the budget: it keeps the order of that
    sequence, and each of its records is the first there with its URL. *)
Theorem scrapeProducts_first_seen_order extract maxProducts :
  maxProducts <= maxInt ->
  exists k catalog err,
    scrapeProducts extract maxProducts
    = mkRun (Some (catalog, err)) (pageNums k)
    /\ (err <> None -> catalog = [])
    /\ (err = None ->
        catalog = take (Z.to_nat maxProducts)
                       (first_seen (stream_of extract (pageNums k)))
        /\ catalog `sublist_of` stream_of extract (pageNums k)
        /\ forall r, r ∈ catalog ->
             exists i, stream_of extract (pageNums k) !! i = Some r
               /\ forall j x, (j < i)%nat ->
                    stream_of extract (pageNums k) !! j = Some x ->
                    URL x <> URL r).
Proof.
  intros Hmax.
  pose proof (scrapeProducts_numbered extract maxProducts Hmax) as Hnum.
  pose proof (scrapeProducts_finished extract maxProducts) as Hfin.
  destruct (scrapeProducts extract maxProducts) as [result log].
  simpl in Hnum. exists (length log).
  destruct Hfin as [_ Hret|log' q e _ _ _ Hret]; simpl in Hret; subst result;
    rewrite <- Hnum; eexists _, _; (split; [done|]).
  - split; [done|]. intros _. split; [done|].
    assert (Hsub : take (Z.to_nat maxProducts) (first_seen (stream_of extract log))
                   `sublist_of` first_seen (stream_of extract log))
      by apply sublist_take.
    split.
    + etrans; [exact Hsub|]. apply first_seen_after_sublist.
    + intros r Hr. apply (first_seen_after_first []).
      by eapply elem_of_sublist.
  - split; [done|]. intros [=].
Qed.

Lemma scrapeProducts_first_seen_order_witness :
  exists k catalog err,
    scrapeProducts pages_A 5 = mkRun (Some (catalog, err)) (pageNums k)
    /\ (err <> None -> catalog = [])
    /\ (err = None ->
        catalog = take (Z.to_nat 5) (first_seen (stream_of pages_A (pageNums k)))
        /\ catalog `sublist_of` stream_of pages_A (pageNums k)
        /\ forall r, r ∈ catalog ->
             exists i, stream_of pages_A (pageNums k) !! i = Some r
               /\ forall j x, (j < i)%nat ->
                    stream_of pages_A (pageNums k) !! j = Some x ->
                    URL x <> URL r).
Proof.
  apply (scrapeProducts_first_seen_order pages_A 5). vm_compute. discriminate.
Defined.

(** C9. For a budget that fits an [int], the page numbers [scrapeProducts]
    hands to [extractProductsFromPage] are 1, 2, 3, ... in this order, none
    left out and none twice; each is at least 1. *)
Theorem scrapeProducts_pages extract maxProducts :
  maxProducts <= maxInt ->
  calls (scrapeProducts extract maxProducts)
  = pageNums (length (calls (scrapeProducts extract maxProducts)))
  /\ forall p, p ∈ calls (scrapeProducts extract maxProducts) -> 1 <= p.
Proof.
  intros Hmax. pose proof (scrapeProducts_numbered extract maxProducts Hmax) as H.
  split; [done|]. intros p. rewrite H, elem_of_pageNums. lia.
Qed.

Lemma scrapeProducts_pages_witness :
  calls (scrapeProducts pages_A 100)
  = pageNums (length (calls (scrapeProducts pages_A 100)))
  /\ forall p, p ∈ calls (scrapeProducts pages_A 100) -> 1 <= p.
Proof. apply (scrapeProducts_pages pages_A 100). vm_compute. discriminate. Defined.

(** C10. The result of [scrapeProducts] is a function of the budget and of
    what the extractor answers for the pages requested: two extractors that
    give the same answers on the pages the first is asked for lead to the
    same catalog, the same error and the same requests. *)
Theorem scrapeProducts_deterministic extract1 extract2 maxProducts :
  (forall p, p ∈ calls (scrapeProducts extract1 maxProducts) ->
             extract1 p = extract2 p) ->
  scrapeProducts extract1 maxProducts = scrapeProducts extract2 maxProducts.
Proof. apply scrapeLoop_agree. Qed.

Lemma scrapeProducts_deterministic_witness :
  scrapeProducts pages_A 5 = scrapeProducts pages_A' 5.
Proof.
  apply (scrapeProducts_deterministic pages_A pages_A' 5).
  intros p Hp. vm_compute in Hp.
  apply elem_of_cons in Hp as [->|Hp]; [reflexivity|].
  apply list_elem_of_singleton in Hp as ->. reflexivity.
Defined.

(** * Further properties *)

(** ** addProductsWithoutDuplicates on arbitrary arguments *)

(** What one call does, whatever the slice, the page, the map and the budget
    are: it appends records of the page, in the order of the page, with URLs
    that are new to the map and differ from each other, counts them, adds
    their URLs to the map and stays within the budget. *)
Lemma addLoop_contract pageProducts products seen addedCount maxProducts :
  exists added,
    (addLoop products seen addedCount maxProducts pageProducts).1.1
    = products ++ added
    /\ (addLoop products seen addedCount maxProducts pageProducts).2
       = addedCount + len added
    /\ added `sublist_of` pageProducts
    /\ NoDup (URL <$> added)
    /\ (forall a, a ∈ added -> URL a ∉ seen)
    /\ (forall u, u ∈ (addLoop products seen addedCount maxProducts
                              pageProducts).1.2
                  <-> u ∈ seen \/ u ∈ URL <$> added)
    /\ (length added <= Z.to_nat (maxProducts - len products))%nat.
Proof.
  destruct (addLoop_spec pageProducts products seen addedCount maxProducts
              (elements seen)) as (seen' & -> & Hseen').
  { intros u. by rewrite elem_of_elements. }
  eexists. simpl. split; [done|]. split; [done|]. split; [|split; [|split]].
  - etrans; [apply sublist_take|apply first_seen_after_sublist].
  - rewrite fmap_take.
    eapply sublist_NoDup; [apply first_seen_after_NoDup|apply sublist_take].
  - intros a Ha.
    pose proof (elem_of_sublist _ _ _ Ha (sublist_take _ _)) as Ha'.
    apply first_seen_after_elem in Ha' as [_ Hfresh].
    by rewrite <- elem_of_elements.
  - split.
    + intros u. rewrite Hseen', elem_of_app, elem_of_elements. tauto.
    + rewrite length_take. lia.
Qed.

(** A call that finds the budget used up, or only URLs of the map, changes
    nothing and counts nothing. *)
Lemma addLoop_noop pageProducts products seen addedCount maxProducts :
  maxProducts <= len products \/ (forall r, r ∈ pageProducts -> URL r ∈ seen) ->
  addLoop products seen addedCount maxProducts pageProducts
  = (products, seen, addedCount).
Proof.
  intros Hnoop. induction pageProducts as [|r rest IH]; [done|].
  cbn [addLoop]. rewrite Z.geb_leb.
  destruct (Z.leb_spec maxProducts (len products)) as [|Hroom]; [done|].
  destruct Hnoop as [|Hold]; [lia|].
  rewrite decide_True by (apply Hold; by left).
  apply IH. right. intros r' Hr'. apply Hold. by right.
Qed.

(** After a call, the budget is used up or the map holds every URL of the
    page. *)
Lemma addLoop_saturates pageProducts : forall products seen addedCount maxProducts,
  maxProducts
    <= len (addLoop products seen addedCount maxProducts pageProducts).1.1
  \/ (forall r, r ∈ pageProducts ->
        URL r ∈ (addLoop products seen addedCount maxProducts pageProducts).1.2).
Proof.
  induction pageProducts as [|r rest IH];
    intros products seen addedCount maxProducts.
  - right. by intros r ?%elem_of_nil.
  - assert (Hmono : forall p s c u, u ∈ s ->
              u ∈ (addLoop p s c maxProducts rest).1.2).
    { intros p s c u Hu.
      destruct (addLoop_contract rest p s c maxProducts)
        as (added & _ & _ & _ & _ & _ & Hs & _). apply Hs. by left. }
    cbn [addLoop]. rewrite Z.geb_leb.
    destruct (Z.leb_spec maxProducts (len products)) as [|Hroom]; [by left|].
    destruct (decide (URL r ∈ seen)) as [Hin|Hnew].
    + destruct (IH products seen addedCount maxProducts) as [|Hall]; [by left|].
      right. intros r' [->|?]%elem_of_cons; [by apply Hmono|by apply Hall].
    + destruct (IH (products ++ [r]) ({[URL r]} ∪ seen) (addedCount + 1)
                   maxProducts) as [|Hall]; [by left|].
      right. intros r' [->|?]%elem_of_cons; [|by apply Hall].
      apply Hmono. apply elem_of_union. left. by apply elem_of_singleton.
Qed.

(** The counter only offsets the count. *)
Lemma addLoop_count pageProducts : forall products seen addedCount maxProducts,
  addLoop products seen addedCount maxProducts pageProducts
  = ((addLoop products seen 0 maxProducts pageProducts).1,
     addedCount + (addLoop products seen 0 maxProducts pageProducts).2).
Proof.
  induction pageProducts as [|r rest IH];
    intros products seen addedCount maxProducts.
  - simpl. f_equal. lia.
  - cbn [addLoop]. destruct (len products >=? maxProducts).
    + simpl. f_equal. lia.
    + destruct (decide (URL r ∈ seen)); [apply IH|].
      rewrite (IH _ _ (addedCount + 1)), (IH _ _ (0 + 1)). simpl. f_equal. lia.
Qed.

Lemma addLoop_app page1 : forall page2 products seen addedCount maxProducts,
  addLoop products seen addedCount maxProducts (page1 ++ page2)
  = addLoop (addLoop products seen addedCount maxProducts page1).1.1
            (addLoop products seen addedCount maxProducts page1).1.2
            (addLoop products seen addedCount maxProducts page1).2
            maxProducts page2.
Proof.
  induction page1 as [|r rest IH];
    intros page2 products seen addedCount maxProducts; [done|].
  cbn [app addLoop]. rewrite Z.geb_leb.
  destruct (Z.leb_spec maxProducts (len products)) as [Hfull|Hroom].
  - simpl. symmetry. apply addLoop_noop. by left.
  - destruct (decide (URL r ∈ seen)); apply IH.
Qed.

(** X1. [addProductsWithoutDuplicates] only appends: the slice it leaves is
    the slice it was given followed by some records of the page, in the order
    they have on the page, and the count it returns is the number of records
    appended.  This holds for every slice, page, map and budget. *)
Theorem addProductsWithoutDuplicates_appends products pageProducts seen maxProducts :
  exists added,
    (addProductsWithoutDuplicates products pageProducts seen maxProducts).1.1
    = products ++ added
    /\ (addProductsWithoutDuplicates products pageProducts seen maxProducts).2
       = len added
    /\ added `sublist_of` pageProducts.
Proof.
  unfold addProductsWithoutDuplicates.
  destruct (addLoop_contract pageProducts products seen 0 maxProducts)
    as (added & Hp & Hn & Hsub & _).
  exists added. rewrite Hp, Hn. by repeat split.
Qed.

(** X2. [addProductsWithoutDuplicates] keeps the slice free of duplicate URLs
    and the map in step with it: if the URLs of the slice are pairwise
    different and all in the map, the same holds of the slice and the map it
    leaves. *)
Theorem addProductsWithoutDuplicates_keeps_unique
    products pageProducts seen maxProducts :
  NoDup (URL <$> products) ->
  (forall u, u ∈ URL <$> products -> u ∈ seen) ->
  NoDup (URL <$> (addProductsWithoutDuplicates products pageProducts seen
                                               maxProducts).1.1)
  /\ forall u,
       u ∈ URL <$> (addProductsWithoutDuplicates products pageProducts seen
                                                 maxProducts).1.1 ->
       u ∈ (addProductsWithoutDuplicates products pageProducts seen
                                         maxProducts).1.2.
Proof.
  intros Hnd Hcover. unfold addProductsWithoutDuplicates.
  destruct (addLoop_contract pageProducts products seen 0 maxProducts)
    as (added & Hp & _ & _ & Hnd' & Hfresh & Hseen & _).
  rewrite Hp, fmap_app. split.
  - apply NoDup_app. split; [done|]. split; [|done].
    intros u Hu (a & -> & Ha)%list_elem_of_fmap.
    by apply (Hfresh a Ha), Hcover.
  - intros u [Hu|Hu]%elem_of_app; apply Hseen; [left; by apply Hcover|by right].
Qed.

Lemma addProductsWithoutDuplicates_keeps_unique_witness :
  NoDup (URL <$> (addProductsWithoutDuplicates
                    [item_a] [item_a; item_b; item_b] {[URL item_a]} 100).1.1)
  /\ forall u,
       u ∈ URL <$> (addProductsWithoutDuplicates
                      [item_a] [item_a; item_b; item_b] {[URL item_a]} 100).1.1 ->
       u ∈ (addProductsWithoutDuplicates
              [item_a] [item_a; item_b; item_b] {[URL item_a]} 100).1.2.
Proof.
  apply (addProductsWithoutDuplicates_keeps_unique
           [item_a] [item_a; item_b; item_b] {[URL item_a]} 100).
  - apply (bool_decide_unpack _). vm_compute. exact I.
  - intros u Hu. apply list_elem_of_singleton in Hu as ->.
    by apply elem_of_singleton.
Defined.

(** X3. [addProductsWithoutDuplicates] never takes the slice beyond the
    budget: the slice it leaves is no longer than the larger of the budget
    and the length it had.  When the slice already fills the budget, the
    call changes neither slice nor map and returns 0. *)
Theorem addProductsWithoutDuplicates_within_budget
    products pageProducts seen maxProducts :
  len (addProductsWithoutDuplicates products pageProducts seen maxProducts).1.1
  <= Z.max (len products) maxProducts
  /\ (maxProducts <= len products ->
      addProductsWithoutDuplicates products pageProducts seen maxProducts
      = (products, seen, 0)).
Proof.
  unfold addProductsWithoutDuplicates. split.
  - destruct (addLoop_contract pageProducts products seen 0 maxProducts)
      as (added & -> & _ & _ & _ & _ & _ & Hlen).
    rewrite len_app. unfold len in *. lia.
  - intros Hfull. apply addLoop_noop. by left.
Qed.

Lemma addProductsWithoutDuplicates_within_budget_witness :
  len (addProductsWithoutDuplicates [item_a; item_b] [item_c] ∅ 2).1.1
  <= Z.max (len [item_a; item_b]) 2
  /\ addProductsWithoutDuplicates [item_a; item_b] [item_c] ∅ 2
     = ([item_a; item_b], ∅, 0).
Proof.
  split.
  - apply (addProductsWithoutDuplicates_within_budget
             [item_a; item_b] [item_c] ∅ 2).
  - apply (addProductsWithoutDuplicates_within_budget
             [item_a; item_b] [item_c] ∅ 2). vm_compute. discriminate.
Defined.

(** X4. Handing [addProductsWithoutDuplicates] the same page a second time
    does nothing: on the slice and the map left by a first call, a second
    call with that page returns 0 and leaves both as they are. *)
Theorem addProductsWithoutDuplicates_idempotent
    products pageProducts seen maxProducts :
  addProductsWithoutDuplicates
    (addProductsWithoutDuplicates products pageProducts seen maxProducts).1.1
    pageProducts
    (addProductsWithoutDuplicates products pageProducts seen maxProducts).1.2
    maxProducts
  = ((addProductsWithoutDuplicates products pageProducts seen maxProducts).1.1,
     (addProductsWithoutDuplicates products pageProducts seen maxProducts).1.2,
     0).
Proof.
  unfold addProductsWithoutDuplicates. apply addLoop_noop, addLoop_saturates.
Qed.

(** X5. Page boundaries do not matter to [addProductsWithoutDuplicates]: a
    call with the records of two pages in one list leaves the slice and the
    map that a call with the first page followed by a call with the second
    leaves, and returns the sum of their counts. *)
Theorem addProductsWithoutDuplicates_split
    products page1 page2 seen maxProducts :
  addProductsWithoutDuplicates products (page1 ++ page2) seen maxProducts
  = ((addProductsWithoutDuplicates
        (addProductsWithoutDuplicates products page1 seen maxProducts).1.1
        page2
        (addProductsWithoutDuplicates products page1 seen maxProducts).1.2
        maxProducts).1,
     (addProductsWithoutDuplicates products page1 seen maxProducts).2
     + (addProductsWithoutDuplicates
          (addProductsWithoutDuplicates products page1 seen maxProducts).1.1
          page2
          (addProductsWithoutDuplicates products page1 seen maxProducts).1.2
          maxProducts).2).
Proof.
  unfold addProductsWithoutDuplicates. rewrite addLoop_app.
  apply addLoop_count.
Qed.

(** ** The filter of extractJSContent *)

Lemma append_String a s t : String a s +:+ t = String a (s +:+ t).
Proof. reflexivity. Qed.

Lemma prefix_spec needle : forall s,
  String.prefix needle s = true <-> exists post, s = needle +:+ post.
Proof.
  induction needle as [|a needle IH]; intros s.
  - split; [intros _; by exists s|by destruct s].
  - destruct s as [|b s]; simpl.
    + split; [done|]. by intros [post ?].
    + destruct (Ascii.ascii_dec a b) as [->|Hne].
      * rewrite IH. split; intros [post Hpost]; exists post.
        -- by rewrite append_String, Hpost.
        -- rewrite append_String in Hpost. congruence.
      * split; [done|]. intros [post Hpost].
        rewrite append_String in Hpost. congruence.
Qed.

Lemma includes_spec needle s :
  Extractor.includes s needle = true
  <-> exists pre post, s = pre +:+ needle +:+ post.
Proof.
  induction s as [|c s IH]; cbn [Extractor.includes];
    rewrite orb_true_iff, prefix_spec.
  - split.
    + intros [[post ->]|?]; [by exists EmptyString, post|done].
    + intros ([|c pre] & post & Hs); [left; by exists post|done].
  - rewrite IH. split.
    + intros [[post ->]|(pre & post & ->)]; [by exists EmptyString, post|].
      by exists (String c pre), post.
    + intros ([|c' pre] & post & Hs); [left; by exists post|].
      right. exists pre, post. rewrite append_String in Hs. congruence.
Qed.

Lemma keeps_iff_includes url :
  Extractor.truthy url && Extractor.includes url "/products/" = true
  <-> Extractor.includes url "/products/" = true.
Proof. destruct url; [by cbv|done]. Qed.

Lemma filter_sublist {A} (f : A -> bool) (l : list A) :
  List.filter f l `sublist_of` l.
Proof.
  induction l as [|x l IH]; simpl; [done|].
  destruct (f x); [by apply sublist_skip|by apply sublist_cons].
Qed.

(** X6. The filter that ends [extractJSContent] returns the records whose URL
    has "/products/" somewhere in it, all of them and no others, in the
    order it received them; the test that the URL is not empty changes
    nothing. *)
Theorem extractJSContent_keeps_product_links mapped :
  Extractor.extractJSContent mapped `sublist_of` mapped
  /\ (forall r, r ∈ Extractor.extractJSContent mapped
        <-> r ∈ mapped
            /\ exists pre post, URL r = pre +:+ "/products/" +:+ post)
  /\ Extractor.extractJSContent mapped
     = List.filter (fun p => Extractor.includes (URL p) "/products/") mapped.
Proof.
  unfold Extractor.extractJSContent. split; [apply filter_sublist|]. split.
  - intros r.
    by rewrite list_elem_of_In, filter_In, keeps_iff_includes, includes_spec,
      list_elem_of_In.
  - apply filter_ext. intros p. apply Bool.eq_true_iff_eq, keeps_iff_includes.
Qed.

(** ** More on scrapeProducts *)

Lemma stream_of_intro extract log p r :
  p ∈ log -> r ∈ fst (extract p) -> r ∈ stream_of extract log.
Proof.
  unfold stream_of. induction log as [|q log IH]; simpl.
  - by intros ?%elem_of_nil.
  - intros [->|Hp]%elem_of_cons Hr; apply elem_of_app; [by left|].
    right. by apply IH.
Qed.

Lemma error_at_call extract maxProducts p e :
  p ∈ calls (scrapeProducts extract maxProducts) ->
  snd (extract p) = Some e ->
  ret (scrapeProducts extract maxProducts)
  = Some ([], Some (Errorf "error scraping page %d: %w"%string p e)).
Proof.
  intros Hcall Herr.
  destruct (scrapeProducts_finished extract maxProducts)
    as [Hok _|log q e' Hlog Hok Hq Hret].
  - by rewrite (Hok p Hcall) in Herr.
  - rewrite Hlog in Hcall.
    apply elem_of_app in Hcall as [Hin|Hlast%list_elem_of_singleton].
    + by rewrite (Hok p Hin) in Herr.
    + subst q. rewrite Hret. congruence.
Qed.

(** The records of a catalog were returned, without error, by pages that
    were requested. *)
Lemma catalog_provenance extract maxProducts :
  exists catalog err,
    ret (scrapeProducts extract maxProducts) = Some (catalog, err)
    /\ forall r, r ∈ catalog ->
         exists p, p ∈ calls (scrapeProducts extract maxProducts)
           /\ snd (extract p) = None /\ r ∈ fst (extract p).
Proof.
  destruct (scrapeProducts_finished extract maxProducts)
    as [Hok Hret|log q e _ _ _ Hret]; rewrite Hret; eexists _, _;
    (split; [done|]).
  - intros r Hr.
    pose proof (elem_of_sublist _ _ _ Hr (sublist_take _ _)) as Hr'.
    apply first_seen_after_elem in Hr' as [Hr' _].
    apply stream_of_elem in Hr' as (p & Hp & Hin).
    exists p. split; [done|]. split; [by apply Hok|done].
  - by intros r ?%elem_of_nil.
Qed.

(** An iteration that leaves the loop without error returns at least the
    records the catalog had. *)
Lemma iteration_Exit_length extract maxProducts st result log :
  iteration extract maxProducts st = Exit result None log ->
  (length (products st) <= length result)%nat.
Proof.
  unfold iteration. destruct (len (products st) <? maxProducts);
    [|by intros [= <- _]].
  destruct (extract (page st)) as [pageProducts [e|]]; [done|].
  destruct (len pageProducts =? 0); [by intros [= <- _]|].
  unfold addProductsWithoutDuplicates.
  destruct (addLoop_contract pageProducts (products st) (seen st) 0 maxProducts)
    as (added & Hp & _).
  destruct (addLoop _ _ _ _ _) as [[products' seen'] n]. simpl in Hp. subst.
  destruct (_ && _); [|done]. intros [= <- _]. rewrite length_app. lia.
Qed.

(** X7. With a budget of zero or less [scrapeProducts] requests no page at
    all and returns an empty catalog and a nil error. *)
Theorem scrapeProducts_without_budget extract maxProducts :
  maxProducts <= 0 ->
  scrapeProducts extract maxProducts = mkRun (Some ([], None)) [].
Proof.
  intros Hmax. apply (run_of_exit _ _ initial); [apply reachable_initial|].
  by apply iteration_full.
Qed.

Lemma scrapeProducts_without_budget_witness :
  scrapeProducts pages_A 0 = mkRun (Some ([], None)) [].
Proof. apply (scrapeProducts_without_budget pages_A 0). lia. Defined.

(** X8. [scrapeProducts] requests at most as many pages as the budget has
    records, and a call that succeeds after n requests returns at least n - 1
    records: every request but the last added one. *)
Theorem scrapeProducts_requests_bounded extract maxProducts :
  (length (calls (scrapeProducts extract maxProducts))
   <= Z.to_nat maxProducts)%nat
  /\ forall catalog,
       ret (scrapeProducts extract maxProducts) = Some (catalog, None) ->
       (length (calls (scrapeProducts extract maxProducts))
        <= S (length catalog))%nat.
Proof.
  destruct (scrapeProducts_exit extract maxProducts)
    as (st & result & err & log & Hst & Hstep & ->). simpl.
  pose proof (reachable_Inv _ _ st Hst) as HI.
  pose proof (inv_progress _ _ st HI) as Hprog.
  assert (Hfit : (length (products st) <= Z.to_nat maxProducts)%nat).
  { rewrite (inv_products _ _ st HI), length_take. lia. }
  split.
  - destruct (iteration_Exit_log _ _ st result err log Hstep)
      as [[_ ->]|[Hroom ->]]; [lia|].
    rewrite length_app. simpl. unfold len in Hroom. lia.
  - intros catalog [= -> ->].
    pose proof (iteration_Exit_length _ _ st catalog log Hstep).
    destruct (iteration_Exit_log _ _ st catalog None log Hstep)
      as [[_ ->]|[_ ->]]; [lia|].
    rewrite length_app. simpl. lia.
Qed.

Lemma scrapeProducts_requests_bounded_witness :
  (length (calls (scrapeProducts pages_C 100)) <= Z.to_nat 100)%nat
  /\ (length (calls (scrapeProducts pages_C 100)) <= S (length [item_a; item_b]))%nat.
Proof.
  split.
  - apply (scrapeProducts_requests_bounded pages_C 100).
  - apply (proj2 (scrapeProducts_requests_bounded pages_C 100)).
    vm_compute. reflexivity.
Defined.

(** X9. Deduplication loses no URL: when [scrapeProducts] succeeds with room
    left in the budget, the catalog is the first record of every URL of the
    pages requested and every URL returned by one of these pages is the URL
    of a catalog record. *)
Theorem scrapeProducts_complete extract maxProducts catalog :
  ret (scrapeProducts extract maxProducts) = Some (catalog, None) ->
  len catalog < maxProducts ->
  catalog
  = first_seen (stream_of extract (calls (scrapeProducts extract maxProducts)))
  /\ forall p r,
       p ∈ calls (scrapeProducts extract maxProducts) ->
       r ∈ fst (extract p) -> URL r ∈ URL <$> catalog.
Proof.
  intros Hcat Hroom.
  destruct (scrapeProducts_finished extract maxProducts)
    as [_ Hret|log q e _ _ _ Hret]; rewrite Hret in Hcat; [|done].
  injection Hcat as Hcat.
  assert (Hall : catalog
            = first_seen (stream_of extract
                            (calls (scrapeProducts extract maxProducts)))).
  { rewrite <- Hcat. apply take_short. rewrite Hcat. unfold len in Hroom. lia. }
  split; [done|]. intros p r Hp Hr. rewrite Hall. unfold first_seen.
  apply first_seen_after_urls. split; [|apply not_elem_of_nil].
  apply list_elem_of_fmap_2. by eapply stream_of_intro.
Qed.

Lemma scrapeProducts_complete_witness :
  [item_a; item_b]
  = first_seen (stream_of pages_C (calls (scrapeProducts pages_C 100)))
  /\ forall p r,
       p ∈ calls (scrapeProducts pages_C 100) ->
       r ∈ fst (pages_C p) -> URL r ∈ URL <$> [item_a; item_b].
Proof.
  apply (scrapeProducts_complete pages_C 100 [item_a; item_b]).
  - vm_compute. reflexivity.
  - vm_compute. reflexivity.
Defined.

(** X10. [scrapeProducts] invents nothing: every record of the catalog was
    returned, with a nil error, by [extractProductsFromPage] for a page that
    was requested. *)
Theorem scrapeProducts_provenance extract maxProducts :
  exists catalog err,
    ret (scrapeProducts extract maxProducts) = Some (catalog, err)
    /\ forall r, r ∈ catalog ->
         exists p, p ∈ calls (scrapeProducts extract maxProducts)
           /\ snd (extract p) = None /\ r ∈ fst (extract p).
Proof. apply catalog_provenance. Qed.

(** ** The program: scrapeProducts over extractProductsFromPage *)

(** X11. Every record in the catalog of the program has "/products/" in its
    URL and is one of the objects the script built on a page that was
    requested and loaded. *)
Theorem scrape_catalog_from_product_links render maxProducts :
  exists catalog err,
    ret (scrape render maxProducts) = Some (catalog, err)
    /\ forall r, r ∈ catalog ->
         (exists pre post, URL r = pre +:+ "/products/" +:+ post)
         /\ exists p mapped,
              p ∈ calls (scrape render maxProducts)
              /\ render p = inr mapped /\ r ∈ mapped.
Proof.
  unfold scrape.
  destruct (catalog_provenance (Extractor.extractProductsFromPage render)
              maxProducts) as (catalog & err & Hret & Hfrom).
  exists catalog, err. split; [done|]. intros r Hr.
  destruct (Hfrom r Hr) as (p & Hp & _ & Hin).
  unfold Extractor.extractProductsFromPage in Hin.
  destruct (render p) as [e|mapped] eqn:Hrender; simpl in Hin.
  { by apply elem_of_nil in Hin. }
  unfold Extractor.extractJSContent in Hin.
  apply list_elem_of_In, filter_In in Hin as [Hin Hkeep].
  apply keeps_iff_includes, includes_spec in Hkeep.
  split; [done|]. exists p, mapped. split; [done|]. split; [done|].
  by apply list_elem_of_In.
Qed.

(** X12. When the browser fails on a page the program requests, the program
    returns a nil catalog and the browser's error wrapped twice, by
    [extractProductsFromPage] and by [scrapeProducts], each time with the
    number of that page. *)
Theorem scrape_browser_failure render maxProducts p err :
  p ∈ calls (scrape render maxProducts) ->
  render p = inl err ->
  ret (scrape render maxProducts)
  = Some ([], Some (Errorf "error scraping page %d: %w" p
                      (Errorf "failed to navigate or evaluate page %d: %w"
                              p err))).
Proof.
  unfold scrape. intros Hcall Hrender. apply error_at_call; [done|].
  unfold Extractor.extractProductsFromPage. by rewrite Hrender.
Qed.

Lemma scrape_browser_failure_witness :
  ret (scrape shop_down 100)
  = Some ([], Some (Errorf "error scraping page %d: %w" 2
                      (Errorf "failed to navigate or evaluate page %d: %w"
                              2 load_error))).
Proof.
  apply (scrape_browser_failure shop_down 100 2 load_error).
  - vm_compute. right. left.
  - reflexivity.
Defined.

(** ** outputResults and main *)

Lemma listProducts_cap products : forall i,
  0 <= i ->
  listProducts i products
  = listAll i (take (Z.to_nat (maxProducts_const - i)) products).
Proof.
  induction products as [|product rest IH]; intros i Hi.
  - by rewrite take_nil.
  - cbn [listProducts]. rewrite Z.geb_leb.
    destruct (Z.leb_spec maxProducts_const i) as [Hcap|Hroom].
    + assert (Z.to_nat (maxProducts_const - i) = 0%nat) as -> by lia. done.
    + assert (Z.to_nat (maxProducts_const - i)
              = S (Z.to_nat (maxProducts_const - (i + 1)))) as -> by lia.
      cbn [take listAll]. f_equal. apply IH. lia.
Qed.

(** X13. In text mode [outputResults] writes the header with the number of
    products it was given, then the entries of the first 100 products only,
    in their order and numbered from 1, and returns; it writes no entry for a
    product beyond the hundredth although the header counts it. *)
Theorem outputResults_text MarshalIndent products :
  outputResults MarshalIndent products false
  = (Printf fmtHeader [ArgInt (len products)]
       :: listAll 0 (take 100 products),
     Returned).
Proof.
  unfold outputResults. f_equal. f_equal. by rewrite listProducts_cap.
Qed.

(** X14. When the browser fails on a page the program requests, [main]
    writes nothing to standard output, whatever the output mode, and ends in
    [log.Fatalf] with the browser's error wrapped twice with the number of
    that page. *)
Theorem main_fails_without_output MarshalIndent outputJSON render p err :
  p ∈ calls (scrape render maxProducts_const) ->
  render p = inl err ->
  main MarshalIndent outputJSON render
  = Some ([], Fatalf "Failed to scrape products: %v"
                (Errorf "error scraping page %d: %w" p
                   (Errorf "failed to navigate or evaluate page %d: %w"
                           p err))).
Proof.
  intros Hcall Hrender. unfold main, scrape in *.
  rewrite (error_at_call _ _ p
             (Errorf "failed to navigate or evaluate page %d: %w" p err));
    [done|done|].
  unfold Extractor.extractProductsFromPage. by rewrite Hrender.
Qed.

Lemma main_fails_without_output_witness :
  main marshal_fails true shop_down
  = Some ([], Fatalf "Failed to scrape products: %v"
                (Errorf "error scraping page %d: %w" 2
                   (Errorf "failed to navigate or evaluate page %d: %w"
                           2 load_error))).
Proof.
  apply (main_fails_without_output marshal_fails true shop_down 2 load_error).
  - vm_compute. right. left.
  - reflexivity.
Defined.



(** ** Two budgets *)

Lemma stream_of_app extract log1 log2 :
  stream_of extract (log1 ++ log2)
  = stream_of extract log1 ++ stream_of extract log2.
Proof. unfold stream_of. by rewrite map_app, concat_app. Qed.

(** Below the smaller budget, the larger budget changes nothing in a call of
    [addProductsWithoutDuplicates]. *)
Lemma addLoop_budget pageProducts :
  forall products seen addedCount maxProducts maxProducts',
  maxProducts <= maxProducts' ->
  len (addLoop products seen addedCount maxProducts pageProducts).1.1
    < maxProducts ->
  addLoop products seen addedCount maxProducts' pageProducts
  = addLoop products seen addedCount maxProducts pageProducts.
Proof.
  induction pageProducts as [|r rest IH];
    intros products seen addedCount m m' Hle; [done|].
  cbn [addLoop]. rewrite !Z.geb_leb.
  destruct (Z.leb_spec m (len products)) as [Hfull|Hroom]; [simpl; lia|].
  destruct (Z.leb_spec m' (len products)) as [|_]; [lia|].
  destruct (decide (URL r ∈ seen)); by apply IH.
Qed.

Section Budgets.
Variable extract : Z -> list Product * option error.
Variables maxProducts maxProducts' : Z.
Hypothesis Hle : maxProducts <= maxProducts'.

(** The catalog of a successful call extends the catalog of every state the
    call went through, and its requests extend the requests made until
    then. *)
Lemma result_extends st catalog :
  reachable extract maxProducts' st ->
  ret (scrapeProducts extract maxProducts') = Some (catalog, None) ->
  (exists more, catalog = products st ++ more)
  /\ exists later,
       calls (scrapeProducts extract maxProducts') = fetched st ++ later.
Proof.
  intros Hst Hret.
  pose proof (reachable_run _ _ st (S (room maxProducts' st)) Hst
                ltac:(lia)) as Hrun.
  destruct (calls_prefix extract maxProducts' (S (room maxProducts' st)) st)
    as [later Hcalls].
  rewrite Hrun in Hcalls. split; [|by exists later].
  destruct (scrapeProducts_finished extract maxProducts')
    as [_ Hfin|log q e _ _ _ Hfin]; rewrite Hfin in Hret; [|done].
  injection Hret as <-.
  rewrite (inv_products _ _ st (reachable_Inv _ _ st Hst)), Hcalls.
  rewrite stream_of_app. unfold first_seen.
  rewrite first_seen_after_app, take_app. by eexists.
Qed.

(** An iteration with room under the smaller budget: what it does under the
    larger one. *)
Lemma iteration_budget st :
  Inv extract maxProducts st -> len (products st) < maxProducts ->
  match iteration extract maxProducts st with
  | Exit result err log =>
      iteration extract maxProducts' st = Exit result err log
  | Continue st1 =>
      exists st1',
        iteration extract maxProducts' st = Continue st1'
        /\ fetched st1' = fetched st1
        /\ ((len (products st1) < maxProducts /\ st1' = st1)
            \/ (maxProducts <= len (products st1)
                /\ take (Z.to_nat maxProducts) (products st1') = products st1))
  end.
Proof.
  intros HI Hroom.
  assert (Hroom' : len (products st) < maxProducts') by lia.
  assert (HI' : forall u, u ∈ seen st <-> u ∈ URL <$> products st)
    by apply (inv_seen _ _ st HI).
  unfold iteration.
  destruct (Z.ltb_spec (len (products st)) maxProducts) as [_|]; [|lia].
  destruct (Z.ltb_spec (len (products st)) maxProducts') as [_|]; [|lia].
  destruct (extract (page st)) as [pageProducts [e|]]; [done|].
  destruct (len pageProducts =? 0); [done|].
  destruct (addProductsWithoutDuplicates_spec (products st) pageProducts
              (seen st) maxProducts HI') as (seen1 & Heq & _).
  destruct (addProductsWithoutDuplicates_spec (products st) pageProducts
              (seen st) maxProducts' HI') as (seen1' & Heq' & _).
  set (fresh := first_seen_after (URL <$> products st) pageProducts) in *.
  destruct (Z.lt_ge_cases
              (len (products st
                      ++ take (Z.to_nat (maxProducts - len (products st))) fresh))
              maxProducts) as [Hsmall|Hfull].
  - assert (Hsame : addProductsWithoutDuplicates (products st) pageProducts
                      (seen st) maxProducts'
                    = addProductsWithoutDuplicates (products st) pageProducts
                        (seen st) maxProducts).
    { apply addLoop_budget; [done|].
      fold (addProductsWithoutDuplicates (products st) pageProducts (seen st)
              maxProducts). by rewrite Heq. }
    rewrite Hsame, Heq. destruct (_ && _); [done|].
    eexists. split; [done|]. split; [done|]. left. by split.
  - rewrite Heq, Heq'.
    destruct (take (Z.to_nat (maxProducts - len (products st))) fresh)
      as [|r new] eqn:Hnew.
    { rewrite app_nil_r in Hfull. lia. }
    destruct (take (Z.to_nat (maxProducts' - len (products st))) fresh)
      as [|r' new'] eqn:Hnew'.
    { destruct (Z.to_nat (maxProducts' - len (products st))) eqn:E'; [lia|].
      destruct fresh; [|done]. by rewrite take_nil in Hnew. }
    replace (len (r :: new) =? 0) with false
      by (symmetry; apply Z.eqb_neq; unfold len; simpl; lia).
    replace (len (r' :: new') =? 0) with false
      by (symmetry; apply Z.eqb_neq; unfold len; simpl; lia).
    simpl. eexists. split; [done|]. split; [done|]. right. split; [done|].
    cbn [products]. rewrite <- Hnew, <- Hnew', take_app, take_take.
    rewrite take_ge by (unfold len in Hroom; lia). f_equal.
    f_equal. unfold len. lia.
Qed.

Lemma budget_lockstep fuel : forall st catalog',
  reachable extract maxProducts st -> reachable extract maxProducts' st ->
  (room maxProducts st < fuel)%nat ->
  ret (scrapeProducts extract maxProducts') = Some (catalog', None) ->
  ret (scrapeProducts extract maxProducts)
  = Some (take (Z.to_nat maxProducts) catalog', None)
  /\ exists later,
       calls (scrapeProducts extract maxProducts')
       = calls (scrapeProducts extract maxProducts) ++ later.
Proof.
  induction fuel as [|fuel IH]; intros st catalog' Hst Hst' Hfuel Hret';
    [lia|].
  pose proof (reachable_Inv _ _ st Hst) as HI.
  assert (Hfit : (length (products st) <= Z.to_nat maxProducts)%nat).
  { rewrite (inv_products _ _ st HI), length_take. lia. }
  destruct (result_extends st catalog' Hst' Hret')
    as [[more Hmore] [later Hlater]].
  destruct (Z.le_gt_cases maxProducts (len (products st))) as [Hfull|Hroom].
  { rewrite (run_of_exit _ _ st _ _ _ Hst (iteration_full _ _ st Hfull)).
    simpl. split; [|by exists later].
    rewrite Hmore, take_app, take_ge by (unfold len in Hfull; lia).
    replace (Z.to_nat maxProducts - length (products st))%nat with 0%nat
      by (unfold len in Hfull; lia).
    by rewrite take_0, app_nil_r. }
  pose proof (iteration_budget st HI Hroom) as Hstep.
  destruct (iteration extract maxProducts st) as [st1|result err log] eqn:Hit.
  - destruct Hstep as (st1' & Hit' & Hlog & Hcase).
    pose proof (reachable_next _ _ _ _ Hst Hit) as Hst1.
    pose proof (reachable_next _ _ _ _ Hst' Hit') as Hst1'.
    destruct (iteration_Continue _ _ st st1 HI Hit) as (_ & Hgrow & _).
    destruct Hcase as [[Hroom1 ->]|[Hfull1 Htake]].
    + apply (IH st1); [done|done|unfold room in *; lia|done].
    + rewrite (run_of_exit _ _ st1 _ _ _ Hst1 (iteration_full _ _ st1 Hfull1)).
      simpl. destruct (result_extends st1' catalog' Hst1' Hret')
        as [[more1 Hmore1] [later1 Hlater1]].
      split; [|exists later1; by rewrite <- Hlog].
      rewrite <- Htake, Hmore1, take_app. rewrite <- (app_nil_r (take _ _)) at 1.
      f_equal.
      assert (Hlen : (Z.to_nat maxProducts <= length (products st1'))%nat).
      { apply (f_equal length) in Htake. rewrite length_take in Htake.
        unfold len in Hfull1. lia. }
      replace (Z.to_nat maxProducts - length (products st1'))%nat with 0%nat
        by lia. by rewrite take_0.
  - pose proof (run_of_exit _ _ st _ _ _ Hst Hit) as Hrun.
    pose proof (run_of_exit _ _ st _ _ _ Hst' Hstep) as Hrun'.
    rewrite Hrun' in Hret'. injection Hret' as -> ->.
    rewrite Hrun, Hrun'. simpl. split; [|exists []; by rewrite app_nil_r].
    destruct (scrapeProducts_finished extract maxProducts)
      as [_ Hfin|log' q e _ _ _ Hfin]; rewrite Hrun in Hfin; simpl in Hfin;
      [|done].
    injection Hfin as Hfin. rewrite Hfin. by rewrite take_take, Nat.min_id.
Qed.

End Budgets.

(** X16. A smaller budget gives the beginning of what a larger budget gives:
    when [scrapeProducts] succeeds with some budget, it succeeds with every
    smaller budget, returns the first records of the same catalog, as many as
    the smaller budget allows, and requests the same pages up to some point. *)
Theorem scrapeProducts_budget_prefix extract maxProducts maxProducts' catalog' :
  maxProducts <= maxProducts' ->
  ret (scrapeProducts extract maxProducts') = Some (catalog', None) ->
  ret (scrapeProducts extract maxProducts)
  = Some (take (Z.to_nat maxProducts) catalog', None)
  /\ exists later,
       calls (scrapeProducts extract maxProducts')
       = calls (scrapeProducts extract maxProducts) ++ later.
Proof.
  intros Hle Hret.
  apply (budget_lockstep extract maxProducts maxProducts' Hle
           (S (room maxProducts initial)) initial);
    [apply reachable_initial|apply reachable_initial|lia|done].
Qed.

Lemma scrapeProducts_budget_prefix_witness :
  ret (scrapeProducts pages_A 5)
  = Some (take (Z.to_nat 5)
               [item_a; item_b; item_c; item_d; item_e; item_f], None)
  /\ exists later,
       calls (scrapeProducts pages_A 100)
       = calls (scrapeProducts pages_A 5) ++ later.
Proof.
  apply (scrapeProducts_budget_prefix pages_A 5 100).
  - lia.
  - vm_compute. reflexivity.
Defined.
